(** * CanICA: canonical independent component analysis

    A shallow embedding of [nisl/decomposition/canica.py]: the helper
    [smooth_from_mask] and the estimator [CanICA] with its methods [fit] and
    [transform].

    - Array entries are exact rationals ([Q]); rounding is not modelled.
    - A 2-D array is the list of its rows.  An array without rows forgets how
      many columns it has, so the embedding speaks about arrays with at least
      one row.
    - Arrays that the program updates in place live in a store indexed by
      locations, so that aliasing between the caller's arrays and the arrays
      [fit] works on is explicit.
    - The numerical routines of numpy, scipy and scikit-learn that the module
      calls (square root, SVD, randomized SVD, FastICA, kurtosis, mask
      extrapolation, Gaussian filter) and the inherited [learn_from_maps] are
      parameters of the development. *)

From Stdlib Require Import QArith Qabs Qround ZArith List String Sorted Lia.
From stdpp Require Import base gmap list sorting.

Local Open Scope Z_scope.

(** ** Exceptions *)

Inductive exn :=
| AssertionError
| UnboundLocalError
| AttributeError
| TypeError
| IndexError
| ValueError (msg : string)
| LinAlgError.

(** ** Arrays *)

Abbreviation vec := (list Q).
Abbreviation matrix := (list (list Q)).

Module np.

Definition shape0 (m : matrix) : nat := length m.

Definition shape1 (m : matrix) : nat :=
  match m with
  | [] => 0%nat
  | r :: _ => length r
  end.

Definition sum (v : vec) : Q := fold_right Qplus 0%Q v.

Definition mean (v : vec) : Q := (sum v / inject_Z (Z.of_nat (length v)))%Q.

Definition column (j : nat) (m : matrix) : vec := map (fun r => nth j r 0%Q) m.

(** [m.T] *)
Definition transpose (m : matrix) : matrix :=
  map (fun j => column j m) (seq 0 (shape1 m)).

(** [m.mean(axis=0)] *)
Definition mean_axis0 (m : matrix) : vec := map mean (transpose m).

(** [m.std(axis=0)]: the root of the mean squared deviation, per column. *)
Definition std (sqrt : Q -> Q) (v : vec) : Q :=
  sqrt (mean (map (fun x => (Qabs (x - mean v) * Qabs (x - mean v))%Q) v)).

Definition std_axis0 (sqrt : Q -> Q) (m : matrix) : vec :=
  map (std sqrt) (transpose m).

(** [m - v] and [m / v], with [v] broadcast over the rows. *)
Definition sub_rows (m : matrix) (v : vec) : matrix :=
  map (fun r => zip_with Qminus r v) m.

Definition div_rows (m : matrix) (v : vec) : matrix :=
  map (fun r => zip_with Qdiv r v) m.

(** [l[:n]] for a Python integer [n]: a negative [n] counts from the end. *)
Definition slice_to {A} (n : Z) (l : list A) : list A :=
  if 0 <=? n then take (Z.to_nat n) l
  else take (length l - Z.to_nat (- n)) l.

(** [m[:, :n]] *)
Definition cols_to (n : Z) (m : matrix) : matrix := map (slice_to n) m.

(** [np.concatenate(ms, axis=1)]: needs one array at least, and the same
    number of rows in each. *)
Definition concatenate1 (ms : list matrix) : exn + matrix :=
  match ms with
  | [] => inl (ValueError "need at least one array to concatenate")
  | m :: rest =>
      if forallb (fun m' => Nat.eqb (length m') (length m)) rest
      then inr (fold_left (zip_with app) rest m)
      else inl (ValueError "all the input array dimensions except for the concatenation axis must match exactly")
  end.

(** [m[idx]] for a list of row indices. *)
Definition take_rows (m : matrix) (idx : list nat) : exn + matrix :=
  match mapM (fun i => m !! i) idx with
  | Some rows => inr rows
  | None => inl IndexError
  end.

Definition vdot (x y : vec) : Q := sum (zip_with Qmult x y).

(** [np.dot(x, b)] for 2-D arrays: the rows of [x] must be as long as [b]
    has rows. *)
Definition dot (x b : matrix) : exn + matrix :=
  if forallb (fun r => Nat.eqb (length r) (shape0 b)) x
  then inr (map (fun r => map (vdot r) (transpose b)) x)
  else inl (ValueError "matrices are not aligned").


(** [m[np.abs(m) < c] = 0] *)
Definition zero_below (c : Q) (m : matrix) : matrix :=
  map (map (fun x => if Qlt_le_dec (Qabs x) c then 0%Q else x)) m.

End np.

(** ** Floating-point scores

    The kurtosis of a candidate map and the kurtosis threshold are floats
    that may be infinite or not-a-number; the control flow of [fit] depends on
    how they compare. *)

Inductive score := NaN | NegInf | Fin (q : Q) | PosInf.

(** [a > b] as floats compare: false as soon as one side is not a number. *)
Definition score_gt (a b : score) : bool :=
  match a, b with
  | NaN, _ | _, NaN => false
  | NegInf, _ => false
  | _, PosInf => false
  | _, NegInf => true
  | PosInf, _ => true
  | Fin x, Fin y => match (x ?= y)%Q with Gt => true | _ => false end
  end.

(** The order numpy sorts floats in: ascending, not-a-number last. *)
Definition sort_compare (a b : score) : comparison :=
  match a, b with
  | NegInf, NegInf => Eq
  | NegInf, _ => Lt
  | Fin _, NegInf => Gt
  | Fin x, Fin y => (x ?= y)%Q
  | Fin _, _ => Lt
  | PosInf, PosInf => Eq
  | PosInf, NaN => Lt
  | PosInf, _ => Gt
  | NaN, NaN => Eq
  | NaN, _ => Gt
  end.

Definition sort_lt (a b : score) : bool :=
  match sort_compare a b with Lt => true | _ => false end.

(** [np.argsort(v)]: the indices of [v] in ascending order of value.  The
    sort is an insertion sort, which is what numpy's default sort runs on
    short vectors; it keeps entries of equal value in index order. *)
Fixpoint insert_sorted (e : nat * score) (l : list (nat * score)) : list (nat * score) :=
  match l with
  | [] => [e]
  | e' :: l' =>
      if sort_lt (snd e') (snd e) then e' :: insert_sorted e l'
      else e :: l
  end.

Definition argsort (v : list score) : list nat :=
  map fst (fold_right insert_sorted [] (zip (seq 0 (length v)) v)).

Definition count_true (l : list bool) : nat := length (filter (fun b => b = true) l).


(** ** The store and the effects of the program

    A location holds one 2-D array of numbers.  The data given to [fit] is
    - a 3-D array of numbers, the sequence of the locations of its planes:
      iterating over it yields views of the planes, which alias its buffer;
    - a 1-D array of objects, the sequence of the locations of the 2-D arrays
      its entries refer to;
    - or a Python list of 2-D arrays, the sequence of the locations of its
      items.
    An array of objects and a list may hold one array twice. *)

Abbreviation loc := nat (only parsing).

Inductive pydata :=
| NdArray (planes : list loc)
| ObjArray (items : list loc)
| PyList (items : list loc).

(** What the program asks of its collaborators and prints, in order. *)
Inductive event :=
| CallSmooth
| CallSVD
| CallRandomizedSVD (n_components : Z)
| CallFastICA
| PrintKurtosis (kurtosis : list score)
| CallLearnFromMaps.

Record state := State {
  heap : gmap loc matrix;
  maps_ : option matrix;          (* the attribute [self.maps_] *)
  trace : list event
}.

(** The outcome of a computation: a value, an exception, or no outcome
    within the number of loop iterations allowed. *)
Inductive res (A : Type) :=
| Ret (a : A)
| Raise (e : exn)
| Spin.
Arguments Ret {A} a.
Arguments Raise {A} e.
Arguments Spin {A}.

Definition M (A : Type) : Type := state -> res A * state.

#[export] Instance M_ret : MRet M := fun A a s => (Ret a, s).

#[export] Instance M_bind : MBind M := fun A B f m s =>
  match m s with
  | (Ret a, s') => f a s'
  | (Raise e, s') => (Raise e, s')
  | (Spin, s') => (Spin, s')
  end.

Definition raise {A} (e : exn) : M A := fun s => (Raise e, s).
Definition spin {A} : M A := fun s => (Spin, s).

Definition lift {A} (r : exn + A) : M A :=
  match r with
  | inl e => raise e
  | inr a => mret a
  end.

Definition emit (e : event) : M unit :=
  fun s => (Ret tt, State (heap s) (maps_ s) (trace s ++ [e])).

Definition alloc (m : matrix) : M loc :=
  fun s => let l := fresh (dom (heap s)) in
           (Ret l, State (<[l := m]> (heap s)) (maps_ s) (trace s)).

Definition load (l : loc) : M matrix :=
  fun s => match heap s !! l with
           | Some m => (Ret m, s)
           | None => (Raise TypeError, s)
           end.

Definition store (l : loc) (m : matrix) : M unit :=
  fun s => (Ret tt, State (<[l := m]> (heap s)) (maps_ s) (trace s)).

Definition get_maps_ : M matrix :=
  fun s => match maps_ s with
           | Some m => (Ret m, s)
           | None => (Raise AttributeError, s)
           end.

Definition set_maps_ (m : matrix) : M unit :=
  fun s => (Ret tt, State (heap s) (Some m) (trace s)).

(** Reading a local variable of a function: an error while no assignment
    has bound it. *)
Definition read_local {A} (x : option A) : M A :=
  match x with
  | Some v => mret v
  | None => raise UnboundLocalError
  end.

(** ** The estimator's parameters *)

(** [kurtosis_thr] is the object [False] or something else, a float. *)
Inductive py_kurtosis_thr :=
| PyFalse
| PyFloat (x : score).

Record CanICA := {
  n_components : Z;
  threshold : Q;
  mask : option (list bool);      (* a boolean volume, flattened *)
  smooth : option Q;              (* [None], or the width in voxels *)
  kurtosis_thr : py_kurtosis_thr;
  maps_only : bool;
  random_state : option Z
}.

(** Truth value of [self.smooth]: [None] and zero are false. *)
Definition truthy (x : option Q) : bool :=
  match x with
  | Some q => negb (Qeq_bool q 0)
  | None => false
  end.

(** [std[std == 0] = 1] *)
Definition fix_zero_std (std : vec) : vec :=
  map (fun s => if Qeq_bool s 0 then 1%Q else s) std.

(** [map3d[mask] = this_map] and [map3d[mask]] on flattened volumes. *)
Fixpoint scatter (map3d : list Q) (mask : list bool) (this_map : vec) : list Q :=
  match map3d, mask with
  | x :: map3d', b :: mask' =>
      if b then
        match this_map with
        | y :: rest => y :: scatter map3d' mask' rest
        | [] => x :: scatter map3d' mask' []
        end
      else x :: scatter map3d' mask' this_map
  | _, _ => map3d
  end.

Definition gather (map3d : list Q) (mask : list bool) : vec :=
  map fst (filter (fun p => snd p = true) (zip map3d mask)).

(** ** The collaborators *)

Class Collaborators := {
  (** The generator object that [check_random_state] returns. *)
  rng : Type;
  check_random_state : option Z -> exn + rng;

  (** [np.sqrt] *)
  np_sqrt : Q -> Q;

  (** [extrapolate_out_mask(map3d, mask, iterations)[0]] and
      [ndimage.gaussian_filter(map3d, sigma)] on flattened volumes. *)
  extrapolate_out_mask : list Q -> list bool -> Z -> list Q;
  gaussian_filter : list Q -> Q -> list Q;

  (** [linalg.svd(a, full_matrices=False)[0]] *)
  svd_U : matrix -> exn + matrix;

  (** [randomized_svd(a, n_components)[0]] *)
  randomized_svd_U : matrix -> Z -> exn + matrix;

  (** [fastica(x, whiten=False, fun='cube', random_state=r)[2]], and the
      generator after the call. *)
  fastica_S : matrix -> rng -> exn + (matrix * rng);

  (** [stats.kurtosis] of one row. *)
  stats_kurtosis : vec -> score;

  (** [BaseModel.learn_from_maps], given [self.maps_] and the data: it may
      raise, and leaves [self.maps_] and the data as they are. *)
  learn_from_maps : matrix -> list matrix -> option exn
}.

Section Program.

Context `{Collaborators}.

(** *** [smooth_from_mask] *)

(** The loop over the rows of [data].  [map3d] is carried from one row to
    the next.  The rows are overwritten one by one, so an exception leaves
    the rows before it smoothed. *)
Fixpoint smooth_rows (mask : list bool) (voxels : Q) (map3d : list Q)
    (data : matrix) : matrix * option exn :=
  match data with
  | [] => ([], None)
  | this_map :: rest =>
      if negb (Nat.eqb (length this_map) (count_true mask))
      then (data, Some (ValueError "shape mismatch"))
      else
        let map3d := scatter map3d mask this_map in
        let map3d := extrapolate_out_mask map3d mask (Qceiling voxels + 2) in
        let map3d := gaussian_filter map3d voxels in
        if negb (Nat.eqb (length map3d) (length mask))
        then (data, Some IndexError)
        else
          let '(rest', e) := smooth_rows mask voxels map3d rest in
          (gather map3d mask :: rest', e)
  end.

Definition smooth_from_mask (data : loc) (mask : list bool) (voxels : Q)
    (copy : bool) : M loc :=
  data ← (if copy then m ← load data; alloc m else mret data);
  rows ← load data;
  let '(rows', e) := smooth_rows mask voxels (repeat 0%Q (length mask)) rows in
  store data rows';;
  match e with
  | Some e => raise e
  | None => mret data
  end.

(** *** [CanICA.fit] *)

(** [data.copy()] of a 3-D array: a new buffer, plane by plane. *)
Fixpoint copy_planes (planes : list loc) : M (list loc) :=
  match planes with
  | [] => mret []
  | p :: rest =>
      m ← load p;
      p' ← alloc m;
      rest' ← copy_planes rest;
      mret (p' :: rest')
  end.

(** [copy.deepcopy(data)] of a list: a new array per distinct item; an item
    met before is copied once. *)
Fixpoint deepcopy_items (memo : list (loc * loc)) (items : list loc) : M (list loc) :=
  match items with
  | [] => mret []
  | i :: rest =>
      match list_find (fun p => fst p = i) memo with
      | Some (_, (_, i')) =>
          rest' ← deepcopy_items memo rest;
          mret (i' :: rest')
      | None =>
          m ← load i;
          i' ← alloc m;
          rest' ← deepcopy_items ((i, i') :: memo) rest;
          mret (i' :: rest')
      end
  end.

(** Lines 91-96: an array has a [copy] method, a list has none.  The copy of
    an array of objects is a new array of the same references. *)
Definition copy_data (data : pydata) : M (list loc) :=
  match data with
  | NdArray planes => copy_planes planes
  | ObjArray items => mret items
  | PyList items => deepcopy_items [] items
  end.

(** Lines 109-111: divide each column by its standard deviation, or by 1
    where that is zero. *)
Definition standardize (subject_data : matrix) : matrix :=
  let std := np.std_axis0 np_sqrt subject_data in
  let std := fix_zero_std std in
  np.div_rows subject_data std.

(** Lines 100-116: the body of the loop over the subjects. *)
Definition reduce_subject (self : CanICA) (subject_data : loc) : M matrix :=
  m ← load subject_data;
  let m := np.sub_rows m (np.mean_axis0 m) in
  store subject_data m;;
  '(subject_data, m) ←
    (if truthy (smooth self) then
       match mask self with
       | None => raise AssertionError
       | Some mask =>
           emit CallSmooth;;
           subject_data ← smooth_from_mask subject_data mask
                            (default 0%Q (smooth self)) false;
           m ← load subject_data;
           subject_data ← alloc m;
           let m := np.sub_rows m (np.mean_axis0 m) in
           store subject_data m;;
           mret (subject_data, m)
       end
     else mret (subject_data, m));
  let m := standardize m in
  store subject_data m;;
  emit CallSVD;;
  u ← lift (svd_U (np.transpose m));
  mret (np.cols_to (2 * n_components self) u).

(** Lines 97-117: the loop over the subjects. *)
Fixpoint reduce_subjects (self : CanICA) (data : list loc) (pcas : list matrix)
    : M (list matrix) :=
  match data with
  | [] => mret pcas
  | subject_data :: rest =>
      p ← reduce_subject self subject_data;
      reduce_subjects self rest (pcas ++ [p])
  end.

(** Lines 119-122.  [kurtosis_thr] is a local variable of [fit], and no
    assignment has bound it when the second branch reads it. *)
Definition resolve_kurtosis_thr (self : CanICA) : M score :=
  let unbound : option score := None in
  match kurtosis_thr self with
  | PyFalse => mret NegInf
  | PyFloat _ => read_local unbound
  end.

(** What one turn of the loop of lines 124-144 ends in. *)
Inductive turn :=
| Break (ica_maps : matrix)
| Next (n_components : Z) (random_state : rng).

(** Lines 125-139: the body of the loop, for the current value of the local
    variable [n_components]. *)
Definition escalation_turn (pcas : list matrix) (kurtosis_thr : score)
    (n_components : Z) (random_state : rng) : M turn :=
  a ← lift (np.concatenate1 pcas);
  emit (CallRandomizedSVD n_components);;
  group_maps ← lift (randomized_svd_U a n_components);
  let group_maps := np.cols_to n_components group_maps in
  emit CallFastICA;;
  '(ica_maps, random_state) ← lift (fastica_S group_maps random_state);
  let ica_maps := np.transpose ica_maps in
  let kurtosis := map stats_kurtosis ica_maps in
  emit (PrintKurtosis kurtosis);;
  let kurtosis_mask := map (fun x => score_gt x kurtosis_thr) kurtosis in
  if Z.of_nat (count_true kurtosis_mask) >=? n_components then
    let order := rev (argsort kurtosis) in
    ica_maps ← lift (np.take_rows ica_maps (np.slice_to n_components order));
    mret (Break ica_maps)
  else
    mret (Next (n_components + 1) random_state).

(** Lines 124-144: [while n_components < 3 * n_components: ... else: raise].
    [fuel] bounds the number of turns. *)
Fixpoint escalate (fuel : nat) (pcas : list matrix) (kurtosis_thr : score)
    (n_components : Z) (random_state : rng) : M matrix :=
  match fuel with
  | O => spin
  | S fuel =>
      if n_components <? 3 * n_components then
        t ← escalation_turn pcas kurtosis_thr n_components random_state;
        match t with
        | Break ica_maps => mret ica_maps
        | Next n_components random_state =>
            escalate fuel pcas kurtosis_thr n_components random_state
        end
      else
        raise (ValueError "Could not find components with high-enough kurtosis")
  end.

(** Lines 148-150: the cutoff is [threshold / sqrt(shape[1])]. *)
Definition cutoff (threshold : Q) (ica_maps : matrix) : Q :=
  (threshold / np_sqrt (inject_Z (Z.of_nat (np.shape1 ica_maps))))%Q.

Definition threshold_maps (threshold : Q) (ica_maps : matrix) : matrix :=
  np.zero_below (cutoff threshold ica_maps) ica_maps.

(** Lines 152-154. *)
Definition relearn (data : list loc) : M unit :=
  maps ← get_maps_;
  subjects ← mapM load data;
  emit CallLearnFromMaps;;
  match learn_from_maps maps subjects with
  | Some e => raise e
  | None => mret tt
  end.

(** Lines 89-117: the generator, the private copy of the data, and the
    reduced basis of each subject. *)
Definition reduction (self : CanICA) (data : pydata)
    : M (rng * list loc * list matrix) :=
  random_state ← lift (check_random_state (random_state self));
  data ← copy_data data;
  pcas ← reduce_subjects self data [];
  mret (random_state, data, pcas).

Definition fit (fuel : nat) (self : CanICA) (data : pydata) : M unit :=
  '(random_state, data, pcas) ← reduction self data;
  kurtosis_thr ← resolve_kurtosis_thr self;
  ica_maps ← escalate fuel pcas kurtosis_thr (n_components self) random_state;
  let ica_maps := threshold_maps (threshold self) ica_maps in
  set_maps_ ica_maps;;
  if maps_only self then mret tt else relearn data.

(** *** [CanICA.transform] *)

Definition transform (X : matrix) : M matrix :=
  maps ← get_maps_;
  lift (np.dot X (np.transpose maps)).

End Program.

(** ** [CanICA.__init__]

    The constructor stores its arguments.  An argument left out is [None]
    here and takes the default of line 71.  The [memory] argument has no
    field: the functions that the program wraps in [memory.cache] are called
    as they are. *)
Definition init (n_components : Z) (threshold : option Q)
    (mask : option (list bool)) (smooth : option Q)
    (kurtosis_thr : option py_kurtosis_thr) (maps_only : option bool)
    (random_state : option Z) : CanICA :=
  Build_CanICA n_components (default 1%Q threshold) mask smooth
    (default PyFalse kurtosis_thr) (default false maps_only) random_state.

(** ** Stand-ins for the collaborators, to run the program on examples *)

Module Demo.

Definition check_random_state (seed : option Z) : exn + nat :=
  inr (Z.to_nat (default 0 seed)).

(** Exact on the squares of rationals. *)
Definition np_sqrt (q : Q) : Q := Z.sqrt (Qnum q) # Pos.sqrt (Qden q).

Definition extrapolate_out_mask (map3d : list Q) (mask : list bool) (iterations : Z)
  : list Q := map3d.

Definition gaussian_filter (map3d : list Q) (sigma : Q) : list Q := map3d.

Definition identity (n : nat) : matrix :=
  map (fun i => map (fun j => if Nat.eqb i j then 1%Q else 0%Q) (seq 0 n)) (seq 0 n).

Definition svd_U (a : matrix) : exn + matrix := inr (identity (length a)).

Definition randomized_svd_U (a : matrix) (n_components : Z) : exn + matrix :=
  inr (np.cols_to n_components a).

(** The sources are read from a table, by the number of components asked
    for; the generator advances by one. *)
Definition fastica_S (table : nat -> matrix) (x : matrix) (r : nat)
  : exn + (matrix * nat) :=
  inr (table (np.shape1 x), S r).

(** Excess kurtosis [m4 / m2^2 - 3]; not a number for a constant row. *)
Definition stats_kurtosis (v : vec) : score :=
  let d := map (fun x => (x - np.mean v)%Q) v in
  let m2 := np.mean (map (fun x => (x * x)%Q) d) in
  let m4 := np.mean (map (fun x => (x * x * x * x)%Q) d) in
  if Qeq_bool m2 0 then NaN else Fin (Qred (m4 / (m2 * m2) - 3)).

Definition learn_from_maps (maps : matrix) (data : list matrix) : option exn := None.

Definition collaborators (table : nat -> matrix) : Collaborators :=
  Build_Collaborators nat check_random_state np_sqrt extrapolate_out_mask
    gaussian_filter svd_U randomized_svd_U (fastica_S table) stats_kurtosis
    learn_from_maps.

Definition run (table : nat -> matrix) := @fit (collaborators table).

(** Two features.  One component: a constant map.  Two components: the two
    unit maps.  *)
Definition sources_a (k : nat) : matrix :=
  match k with
  | 1%nat => [[1]; [1]]
  | _ => [[1; 0]; [0; 1]]
  end%Q.

(** One component: a constant map.  Two: one constant map out of two.
    Three and more: three maps, none constant. *)
Definition sources_b (k : nat) : matrix :=
  match k with
  | 1%nat => [[1]; [1]]
  | 2%nat => [[1; 1]; [0; 1]]
  | _ => [[1; 0; 1]; [0; 1; 0]]
  end%Q.

(** One feature: one source, of one entry, whatever is asked for. *)
Definition sources_c (k : nat) : matrix := [[1]]%Q.

(** [CanICA(n, smooth=smooth, kurtosis_thr=thr)], and [CanICA(n)]. *)
Definition model (n : Z) (smooth : option Q) (thr : py_kurtosis_thr) : CanICA :=
  {| n_components := n; threshold := 1; mask := None; smooth := smooth;
     kurtosis_thr := thr; maps_only := false; random_state := None |}.

Definition default_model (n : Z) : CanICA := model n None PyFalse.

(** Two subjects, two samples of two features each, in a list. *)
Definition subject1 : matrix := [[1; 2]; [3; 6]]%Q.
Definition subject2 : matrix := [[0; 1]; [2; 1]]%Q.

Definition heap0 : gmap loc matrix := <[1%nat := subject2]> (<[0%nat := subject1]> ∅).
Definition state0 : state := State heap0 None [].
Definition data0 : pydata := PyList [0%nat; 1%nat].

(** One subject, two samples of one feature. *)
Definition subject3 : matrix := [[1]; [3]]%Q.
Definition state1 : state := State (<[0%nat := subject3]> ∅) None [].
Definition data1 : pydata := PyList [0%nat].

(** A volume of three voxels, the first and the last in the mask. *)
Definition mask0 : list bool := [true; false; true].

(** [CanICA(n, mask=mask0, smooth=1)] *)
Definition smoothing_model (n : Z) : CanICA :=
  init n None (Some mask0) (Some 1%Q) None None None.

(** The same collaborators, with a [learn_from_maps] that raises. *)
Definition collaborators_failing_learn (table : nat -> matrix) : Collaborators :=
  Build_Collaborators nat check_random_state np_sqrt extrapolate_out_mask
    gaussian_filter svd_U randomized_svd_U (fastica_S table) stats_kurtosis
    (fun _ _ => Some LinAlgError).

End Demo.


(** ** Vocabulary of the properties *)

(** [keeps I m φ]: the computation [m] maintains the property [I] of the
    state, whatever its outcome, and a value it returns satisfies [φ]. *)
Definition keeps {A} (I : state -> Prop) (m : M A) (φ : A -> Prop) : Prop :=
  ∀ s, I s -> I (m s).2 ∧ ∀ a, (m s).1 = Ret a -> φ a.

(** The store of [s] still holds every array of [h0], unchanged. *)
Definition agrees (h0 : gmap loc matrix) (s : state) : Prop :=
  ∀ l m, h0 !! l = Some m -> heap s !! l = Some m.




(** [map] as the [fmap] of lists, for the lemmas that are stated about it. *)
Ltac fmapify :=
  repeat match goal with
         | |- context [map ?f ?l] => change (map f l) with (f <$> l)
         | H : context [map ?f ?l] |- _ => change (map f l) with (f <$> l) in H
         end.

(** The arrays that the data holds, one per subject. *)
Definition subjects (data : pydata) : list loc :=
  match data with
  | NdArray planes => planes
  | ObjArray items => items
  | PyList items => items
  end.

(** A 2-D array with at least one row: all the rows have the same length. *)
Definition rectangular (m : matrix) : Prop :=
  m ≠ [] ∧ Forall (fun r : vec => length r = np.shape1 m) m.

(** * Properties *)

(** ** Reasoning about computations *)

Lemma bind_Ret_inv {A B} (m : M A) (f : A -> M B) s b s' :
  (m ≫= f) s = (Ret b, s') ->
  ∃ a s1, m s = (Ret a, s1) ∧ f a s1 = (Ret b, s').
Proof.
  unfold mbind, M_bind. destruct (m s) as [[a|e|] s1]; intros Heq; try discriminate.
  eauto.
Qed.

Lemma bind_Ret {A B} (m : M A) (f : A -> M B) s a s1 :
  m s = (Ret a, s1) -> (m ≫= f) s = f a s1.
Proof. intros Hm. unfold mbind, M_bind. by rewrite Hm. Qed.

Lemma bind_Raise {A B} (m : M A) (f : A -> M B) s e s1 :
  m s = (Raise e, s1) -> (m ≫= f) s = (Raise e, s1).
Proof. intros Hm. unfold mbind, M_bind. by rewrite Hm. Qed.

Lemma keeps_ret {A} I (a : A) (φ : A -> Prop) : φ a -> keeps I (mret a) φ.
Proof. intros Ha s Hs. split; [done|]. by intros ? [= <-]. Qed.

Lemma keeps_raise {A} I e (φ : A -> Prop) : keeps I (raise e) φ.
Proof. intros s Hs. split; [done|]. intros ? [=]. Qed.

Lemma keeps_spin {A} I (φ : A -> Prop) : keeps I spin φ.
Proof. intros s Hs. split; [done|]. intros ? [=]. Qed.

Lemma keeps_lift {A} I (r : exn + A) (φ : A -> Prop) :
  (∀ a, r = inr a -> φ a) -> keeps I (lift r) φ.
Proof.
  destruct r as [e|a]; intros Hr; [apply keeps_raise|apply keeps_ret; auto].
Qed.

Lemma keeps_bind {A B} I (m : M A) (f : A -> M B) (ψ : A -> Prop) (φ : B -> Prop) :
  keeps I m ψ -> (∀ a, ψ a -> keeps I (f a) φ) -> keeps I (m ≫= f) φ.
Proof.
  intros Hm Hf s Hs. destruct (Hm s Hs) as [HI Hψ].
  unfold mbind, M_bind. destruct (m s) as [[a|e|] s1]; simpl in *.
  - apply (Hf a); auto.
  - split; [done|]. intros ? [=].
  - split; [done|]. intros ? [=].
Qed.

Lemma keeps_weaken {A} I (m : M A) (ψ φ : A -> Prop) :
  keeps I m ψ -> (∀ a, ψ a -> φ a) -> keeps I m φ.
Proof. intros Hm Himp s Hs. destruct (Hm s Hs). split; auto. Qed.

Lemma keeps_load I l : keeps I (load l) (fun _ => True).
Proof.
  intros s Hs. unfold load. destruct (heap s !! l); simpl; auto.
Qed.

Lemma keeps_get_maps_ I : keeps I get_maps_ (fun _ => True).
Proof.
  intros s Hs. unfold get_maps_. destruct (maps_ s); simpl; auto.
Qed.

Lemma keeps_read_local {A} I (x : option A) : keeps I (read_local x) (fun _ => True).
Proof. destruct x; [by apply keeps_ret|apply keeps_raise]. Qed.


(** ** Invariants of the steps of [fit] *)

Section Invariant.

Context `{Collaborators}.

(** A property [I] of the state that printing and calling a collaborator
    keep, that allocation keeps while it returns a [private] location, and
    that writing to a [private] location keeps. *)
Variable I : state -> Prop.
Variable private : loc -> Prop.
Hypothesis I_emit : ∀ e, keeps I (emit e) (fun _ => True).
Hypothesis I_alloc : ∀ m, keeps I (alloc m) private.
Hypothesis I_store : ∀ l m, private l -> keeps I (store l m) (fun _ => True).

Ltac keeps_prim :=
  first
    [ apply keeps_load
    | apply keeps_get_maps_
    | apply I_emit
    | apply I_alloc
    | apply keeps_raise
    | apply keeps_spin
    | apply keeps_read_local
    | (apply I_store; assumption)
    | (apply keeps_lift; intros; exact Logic.I) ].

Ltac keeps_seq := eapply keeps_bind; [keeps_prim|cbv beta; intros].

Tactic Notation "keeps_seq" "as" simple_intropattern(x) :=
  eapply keeps_bind; [keeps_prim|cbv beta; intros x ?].

Lemma keeps_smooth_from_mask data mask voxels copy :
  private data ->
  keeps I (smooth_from_mask data mask voxels copy) private.
Proof.
  intros Hdata. unfold smooth_from_mask.
  eapply keeps_bind with (ψ := private).
  { destruct copy; [|by apply keeps_ret]. keeps_seq. keeps_prim. }
  intros data' Hdata'. keeps_seq.
  destruct (smooth_rows _ _ _ _) as [rows' [e|]].
  - keeps_seq. keeps_prim.
  - keeps_seq. by apply keeps_ret.
Qed.

Lemma keeps_copy_planes planes :
  keeps I (copy_planes planes) (Forall private).
Proof.
  induction planes as [|p rest IH]; simpl.
  - by apply keeps_ret.
  - keeps_seq. eapply keeps_bind; [apply I_alloc|].
    intros p' Hp'. eapply keeps_bind; [apply IH|].
    intros rest' Hrest'. apply keeps_ret. by constructor.
Qed.

Lemma keeps_deepcopy_items items : ∀ memo,
  Forall (fun p : loc * loc => private p.2) memo ->
  keeps I (deepcopy_items memo items) (Forall private).
Proof.
  induction items as [|i rest IH]; intros memo Hmemo; simpl.
  - by apply keeps_ret.
  - destruct (list_find _ memo) as [[k [i0 i']]|] eqn:Hfind.
    + apply list_find_Some in Hfind as (Hk & _ & _).
      eapply keeps_bind; [by apply IH|].
      intros rest' Hrest'. apply keeps_ret. constructor; [|done].
      eapply (Forall_lookup_1 _ _ _ _ Hmemo Hk).
    + keeps_seq. eapply keeps_bind; [apply I_alloc|].
      intros i' Hi'. eapply keeps_bind; [apply IH; by constructor|].
      intros rest' Hrest'. apply keeps_ret. by constructor.
Qed.

(** The entries of an array of objects are not copied: they have to be
    [private] already. *)
Lemma keeps_copy_data data :
  (∀ items, data = ObjArray items -> Forall private items) ->
  keeps I (copy_data data) (Forall private).
Proof.
  intros Hobj. destruct data as [planes|items|items]; simpl.
  - apply keeps_copy_planes.
  - apply keeps_ret. by apply Hobj.
  - apply keeps_deepcopy_items. constructor.
Qed.

Lemma keeps_reduce_subject self subject_data :
  private subject_data ->
  keeps I (reduce_subject self subject_data) (fun _ => True).
Proof.
  intros Hp. unfold reduce_subject.
  keeps_seq. keeps_seq.
  eapply keeps_bind with (ψ := fun p : loc * matrix => private p.1).
  { destruct (truthy _); [|by apply keeps_ret].
    destruct (mask self) as [msk|]; [|apply keeps_raise].
    keeps_seq. eapply keeps_bind; [by apply keeps_smooth_from_mask|].
    intros sd Hsd. keeps_seq. eapply keeps_bind; [apply I_alloc|].
    intros sd' Hsd'. keeps_seq. by apply keeps_ret. }
  intros [sd m'] Hsd. simpl in Hsd.
  keeps_seq. keeps_seq. keeps_seq. by apply keeps_ret.
Qed.

Lemma keeps_reduce_subjects self data : ∀ pcas,
  Forall private data ->
  keeps I (reduce_subjects self data pcas) (fun _ => True).
Proof.
  induction data as [|l rest IH]; intros pcas Hdata; simpl.
  - by apply keeps_ret.
  - inversion Hdata; subst.
    eapply keeps_bind; [by apply keeps_reduce_subject|].
    intros p _. by apply IH.
Qed.

Lemma keeps_reduction self data :
  (∀ items, data = ObjArray items -> Forall private items) ->
  keeps I (reduction self data)
    (fun r : rng * list loc * list matrix => Forall private r.1.2).
Proof.
  intros Hobj. unfold reduction. keeps_seq.
  eapply keeps_bind; [by apply keeps_copy_data|].
  intros data' Hdata'.
  eapply keeps_bind; [by apply keeps_reduce_subjects|].
  intros pcas _. by apply keeps_ret.
Qed.

Lemma keeps_escalation_turn pcas thr k rs :
  keeps I (escalation_turn pcas thr k rs) (fun _ => True).
Proof.
  unfold escalation_turn.
  keeps_seq. keeps_seq. keeps_seq. keeps_seq.
  keeps_seq as [ica_maps rs']. keeps_seq.
  destruct (_ >=? _).
  - keeps_seq. by apply keeps_ret.
  - by apply keeps_ret.
Qed.

Lemma keeps_escalate fuel : ∀ pcas thr k rs,
  keeps I (escalate fuel pcas thr k rs) (fun _ => True).
Proof.
  induction fuel as [|fuel IH]; intros pcas thr k rs; simpl.
  - apply keeps_spin.
  - destruct (_ <? _); [|apply keeps_raise].
    eapply keeps_bind; [apply keeps_escalation_turn|].
    intros [ica_maps|k' rs'] _; [by apply keeps_ret|apply IH].
Qed.



End Invariant.

(** ** The caller's arrays *)

Lemma agrees_refl s : agrees (heap s) s.
Proof. by intros l m. Qed.








(** ** The maps that [fit] publishes *)

Lemma load_state l s : (load l s).2 = s.
Proof. unfold load. by destruct (heap s !! l). Qed.

Lemma mapM_load_state (data : list loc) s : (mapM load data s).2 = s.
Proof.
  induction data as [|l rest IH]; [done|].
  simpl. unfold mbind, M_bind.
  pose proof (load_state l s) as Hl.
  destruct (load l s) as [[m|e|] s1]; simpl in Hl; subst s1; try done.
  destruct (mapM load rest s) as [[subjects|e|] s1]; simpl in *; by subst.
Qed.

(** [relearn] only reports its call: the store and [maps_] stay. *)
Lemma relearn_state `{Collaborators} data s :
  heap (relearn data s).2 = heap s ∧ maps_ (relearn data s).2 = maps_ s.
Proof.
  unfold relearn, mbind, M_bind, get_maps_. destruct (maps_ s) as [maps|] eqn:Hm; [|done].
  pose proof (mapM_load_state data s) as Hl.
  destruct (mapM load data s) as [[subjects|e|] s1]; simpl in Hl; subst s1; try done.
  simpl. by destruct (learn_from_maps _ _).
Qed.

Lemma shape1_zero_below c m : np.shape1 (np.zero_below c m) = np.shape1 m.
Proof. destruct m as [|r m]; [done|]. simpl. by rewrite length_map. Qed.





(** ** Standardization *)

Lemma Qdiv_1_r_eq (x : Q) : (x / 1)%Q = x.
Proof.
  destruct x as [n d]. unfold Qdiv, Qmult, Qinv. simpl.
  by rewrite Z.mul_1_r, Pos.mul_1_r.
Qed.

Lemma fix_zero_std_nonzero std : Forall (fun d => ¬ (d == 0)%Q) (fix_zero_std std).
Proof.
  unfold fix_zero_std. apply Forall_fmap, Forall_forall. intros s _. simpl.
  destruct (Qeq_bool s 0) eqn:Hs.
  - discriminate.
  - by apply Qeq_bool_neq.
Qed.

(** C9: in the reduction of a subject, a column whose standard deviation is
    exactly zero is divided by 1: no divisor is zero, and such a column comes
    out of the standardization as it went in. *)
Theorem standardize_zero_std `{Collaborators} (subject_data : matrix) :
  let std := np.std_axis0 np_sqrt subject_data in
  standardize subject_data = np.div_rows subject_data (fix_zero_std std) ∧
  Forall (fun d => ¬ (d == 0)%Q) (fix_zero_std std) ∧
  ∀ j s, std !! j = Some s -> (s == 0)%Q ->
    fix_zero_std std !! j = Some 1%Q ∧
    ∀ i r r', subject_data !! i = Some r -> standardize subject_data !! i = Some r' ->
      r' !! j = r !! j.
Proof.
  intros std. split; [done|]. split; [apply fix_zero_std_nonzero|].
  intros j s Hj Hs.
  assert (Hone : fix_zero_std std !! j = Some 1%Q).
  { unfold fix_zero_std. fmapify. rewrite list_lookup_fmap, Hj. simpl.
    apply Qeq_bool_iff in Hs. by rewrite Hs. }
  split; [done|]. intros i r r' Hr Hr'.
  unfold standardize, np.div_rows in Hr'. fold std in Hr'. fmapify.
  rewrite list_lookup_fmap, Hr in Hr'. injection Hr' as <-.
  rewrite lookup_zip_with, Hone. destruct (r !! j) as [x|]; [|done].
  simpl. by rewrite Qdiv_1_r_eq.
Qed.

Lemma standardize_zero_std_witness :
  @standardize (Demo.collaborators Demo.sources_a) [[1; 2]; [1; 4]]%Q !! 1%nat
    ≫= (fun r => r !! 0%nat) = Some 1%Q.
Proof.
  pose proof (standardize_zero_std (H := Demo.collaborators Demo.sources_a)
                [[1; 2]; [1; 4]]%Q) as (_ & _ & Hcol).
  edestruct (Hcol 0%nat) as [_ Hrows]; [vm_compute; reflexivity|reflexivity|].
  destruct (@standardize (Demo.collaborators Demo.sources_a) [[1; 2]; [1; 4]]%Q !! 1%nat)
    as [r'|] eqn:Hr'; [|discriminate Hr'].
  simpl. exact (Hrows 1%nat [1; 4]%Q r' eq_refl Hr').
Defined.

(** ** [transform] *)

Lemma shape0_transpose m : np.shape0 (np.transpose m) = np.shape1 m.
Proof. unfold np.shape0, np.transpose. by rewrite length_map, length_seq. Qed.




Lemma dot_aligned (x b : matrix) :
  Forall (fun r : vec => length r = np.shape0 b) x ->
  np.dot x b = inr (map (fun r => map (np.vdot r) (np.transpose b)) x).
Proof.
  intros Hx. unfold np.dot.
  replace (forallb _ x) with true; [done|].
  symmetry. apply forallb_forall. intros r Hr.
  apply Nat.eqb_eq. rewrite Forall_forall in Hx. apply Hx. by apply list_elem_of_In.
Qed.

Lemma transform_fitted maps X s :
  maps_ s = Some maps -> transform X s = (lift (np.dot X (np.transpose maps)) s).
Proof.
  intros Hm. unfold transform, mbind, M_bind, get_maps_. by rewrite Hm.
Qed.



(** ** The order of the selected maps *)





Lemma insert_sorted_perm e l : insert_sorted e l ≡ₚ e :: l.
Proof.
  induction l as [|e' l IH]; simpl; [done|].
  destruct (sort_lt e'.2 e.2); [|done].
  rewrite IH. apply Permutation_swap.
Qed.



Lemma argsort_pairs_perm (v : list score) :
  fold_right insert_sorted [] (zip (seq 0 (length v)) v) ≡ₚ zip (seq 0 (length v)) v.
Proof.
  induction (zip (seq 0 (length v)) v) as [|e l IH]; simpl; [done|].
  by rewrite insert_sorted_perm, IH.
Qed.

Lemma argsort_perm (v : list score) : argsort v ≡ₚ seq 0 (length v).
Proof.
  unfold argsort. fmapify. rewrite argsort_pairs_perm.
  rewrite fst_zip; [done|]. by rewrite length_seq.
Qed.






(** ** The kurtosis threshold *)

(** The reduction of the subjects does not touch [maps_]. *)
Lemma reduction_maps_ `{Collaborators} self data s :
  maps_ (reduction self data s).2 = maps_ s.
Proof.
  refine (proj1 (keeps_reduction (fun s' => maps_ s' = maps_ s) (fun _ => True)
                   _ _ _ self data _ s eq_refl)).
  - intros e s' Hs'. by split.
  - intros m s' Hs'. by split.
  - intros l m _ s' Hs'. by split.
  - intros items _. by apply Forall_true.
Qed.

(** C5, as the program has it: with [kurtosis_thr] set to anything but
    [False], a call to [fit] in which the reduction of the subjects completes
    raises [UnboundLocalError] where the threshold is resolved, in the state
    the reduction left: no group aggregation and no component extraction has
    run.  No call to [fit] returns, and [maps_] stays as it was. *)
Theorem fit_kurtosis_thr_unbound `{Collaborators} fuel self data s x :
  kurtosis_thr self = PyFloat x ->
  (∀ r s1, reduction self data s = (Ret r, s1) ->
     fit fuel self data s = (Raise UnboundLocalError, s1)) ∧
  (fit fuel self data s).1 ≠ Ret tt ∧
  maps_ (fit fuel self data s).2 = maps_ s.
Proof.
  intros Hthr.
  assert (Hfit : ∀ r s1, reduction self data s = (Ret r, s1) ->
            fit fuel self data s = (Raise UnboundLocalError, s1)).
  { intros [[rs data'] pcas] s1 Hred. unfold fit.
    rewrite (bind_Ret _ _ _ _ _ Hred).
    unfold resolve_kurtosis_thr. by rewrite Hthr. }
  split; [exact Hfit|].
  pose proof (reduction_maps_ self data s) as Hmaps.
  destruct (reduction self data s) as [[r|e|] s1] eqn:Hred; simpl in Hmaps.
  - rewrite (Hfit r s1 eq_refl). by split.
  - unfold fit. rewrite (bind_Raise _ _ _ _ _ Hred). by split.
  - unfold fit, mbind, M_bind. rewrite Hred. by split.
Qed.

Lemma fit_kurtosis_thr_unbound_witness :
  Demo.run Demo.sources_a 5 (Demo.model 2 None (PyFloat (Fin (-5 # 2))))
    Demo.data0 Demo.state0 =
  (Raise UnboundLocalError,
   (@reduction (Demo.collaborators Demo.sources_a)
      (Demo.model 2 None (PyFloat (Fin (-5 # 2)))) Demo.data0 Demo.state0).2).
Proof.
  eapply (proj1 (fit_kurtosis_thr_unbound (H := Demo.collaborators Demo.sources_a)
                   5 (Demo.model 2 None (PyFloat (Fin (-5 # 2))))
                   Demo.data0 Demo.state0 (Fin (-5 # 2)) eq_refl)).
  vm_compute. reflexivity.
Defined.

(** C5, as the claim has it: not every call raises [UnboundLocalError].  With
    smoothing asked for and no mask, the assertion of line 102 fails first. *)
Lemma assertion_before_unbound_local :
  (Demo.run Demo.sources_a 5 (Demo.model 2 (Some 1%Q) (PyFloat (Fin 2)))
     Demo.data0 Demo.state0).1 = Raise AssertionError.
Proof. vm_compute. reflexivity. Qed.


(** ** The escalation loop *)

Lemma lift_Ret_inv {A} (r : exn + A) s a s' :
  lift r s = (Ret a, s') -> r = inr a ∧ s' = s.
Proof. destruct r; simpl; intros [= <- <-]; done. Qed.

(** The loop is entered exactly when the count is positive. *)
Lemma while_condition (n_components : Z) :
  (n_components <? 3 * n_components) = true ↔ 0 < n_components.
Proof. rewrite Z.ltb_lt. lia. Qed.

(** A turn that leaves the loop returns as many rows as the current count. *)
Lemma escalation_turn_Break `{Collaborators} pcas thr k rs s ica_maps s' :
  0 <= k ->
  escalation_turn pcas thr k rs s = (Ret (Break ica_maps), s') ->
  length ica_maps = Z.to_nat k.
Proof.
  intros Hk Hturn. unfold escalation_turn in Hturn.
  apply bind_Ret_inv in Hturn as (a & s1 & _ & Hturn).
  apply bind_Ret_inv in Hturn as ([] & s2 & _ & Hturn).
  apply bind_Ret_inv in Hturn as (g & s3 & _ & Hturn).
  apply bind_Ret_inv in Hturn as ([] & s4 & _ & Hturn).
  apply bind_Ret_inv in Hturn as ([src rs'] & s5 & _ & Hturn).
  apply bind_Ret_inv in Hturn as ([] & s6 & _ & Hturn).
  destruct (_ >=? _) eqn:Hacc; [|discriminate].
  apply bind_Ret_inv in Hturn as (rows & s7 & Hrows & Hret).
  injection Hret as -> ->.
  apply lift_Ret_inv in Hrows as [Hrows _].
  unfold np.take_rows in Hrows.
  destruct (mapM _ _) as [rows'|] eqn:Hmap; [|discriminate].
  injection Hrows as ->. apply length_mapM in Hmap. rewrite <- Hmap.
  unfold np.slice_to. replace (0 <=? k) with true by (symmetry; apply Z.leb_le; lia).
  rewrite length_take, length_rev.
  rewrite (Permutation_length (argsort_perm _)), length_seq, !length_map.
  apply Z.geb_le in Hacc. unfold count_true in Hacc.
  pose proof (length_filter (fun b => b = true)
    (map (fun x => score_gt x thr) (map stats_kurtosis (np.transpose src)))) as Hle.
  rewrite !length_map in Hle. lia.
Qed.



(** Once the count is positive, a loop whose turns all ask for one more
    component never ends: no number of turns is enough. *)
Lemma escalate_spins `{Collaborators} pcas thr :
  (∀ k rs s, 0 < k ->
     ∃ rs' s', escalation_turn pcas thr k rs s = (Ret (Next (k + 1) rs'), s')) ->
  ∀ fuel k rs s, 0 < k -> (escalate fuel pcas thr k rs s).1 = Spin.
Proof.
  intros Hturn. induction fuel as [|fuel IH]; intros k rs s Hk; simpl; [done|].
  replace (k <? 3 * k) with true by (symmetry; by apply while_condition).
  destruct (Hturn k rs s Hk) as (rs' & s' & Hnext).
  rewrite (bind_Ret _ _ _ _ _ Hnext). apply IH. lia.
Qed.

(** With a count that is not positive the loop is not entered, and its [else]
    branch raises. *)
Lemma escalate_not_positive `{Collaborators} fuel pcas thr k rs s :
  k <= 0 ->
  escalate (S fuel) pcas thr k rs s =
    (Raise (ValueError "Could not find components with high-enough kurtosis"), s).
Proof.
  intros Hk. simpl. destruct (k <? 3 * k) eqn:Hc; [|done].
  apply while_condition in Hc. lia.
Qed.

(** C1: asked for one component, [fit] succeeds with two rows in [maps_].
    The first turn finds one candidate, whose kurtosis is not a number; the
    count goes to two; the second turn finds two candidates that pass, and
    keeps [order[:2]]. *)
Theorem fit_rows_follow_escalated_count :
  let out := Demo.run Demo.sources_a 5 (Demo.default_model 1) Demo.data0 Demo.state0 in
  out.1 = Ret tt ∧
  trace out.2 = [CallSVD; CallSVD;
                 CallRandomizedSVD 1; CallFastICA; PrintKurtosis [NaN];
                 CallRandomizedSVD 2; CallFastICA; PrintKurtosis [Fin (-2); Fin (-2)];
                 CallLearnFromMaps] ∧
  maps_ out.2 = Some [[0; 1]; [1; 0]]%Q ∧
  (np.shape0 <$> maps_ out.2) = Some 2%nat.
Proof. vm_compute. repeat split. Qed.

(** C3: asked for one component, the loop is at count two with two
    candidates of which one passes (kurtosis -2, not a number).  One passing
    candidate is as many as were asked for, yet the turn does not leave the
    loop: it compares with the count, two.  The loop leaves at count three
    and keeps three rows. *)
Theorem acceptance_compares_with_escalated_count :
  let out := Demo.run Demo.sources_b 5 (Demo.default_model 1) Demo.data0 Demo.state0 in
  out.1 = Ret tt ∧
  trace out.2 = [CallSVD; CallSVD;
                 CallRandomizedSVD 1; CallFastICA; PrintKurtosis [NaN];
                 CallRandomizedSVD 2; CallFastICA; PrintKurtosis [Fin (-2); NaN];
                 CallRandomizedSVD 3; CallFastICA; PrintKurtosis [Fin (-2); Fin (-2); Fin (-2)];
                 CallLearnFromMaps] ∧
  count_true (map (fun x => score_gt x NegInf) [Fin (-2); NaN]) = 1%nat ∧
  maps_ out.2 = Some [[1; 0]; [0; 1]; [1; 0]]%Q.
Proof. vm_compute. repeat split. Qed.

(** C2: asked for two components of data with one feature, every turn finds
    one candidate, fewer than the count, and adds one to the count.  The
    condition of the loop, [n_components < 3 * n_components], holds for every
    positive count, so whatever the number of turns allowed [fit] is still in
    the loop: it never raises. *)
Theorem escalation_has_no_bound (fuel : nat) :
  (Demo.run Demo.sources_c fuel (Demo.default_model 2) Demo.data1 Demo.state1).1 = Spin.
Proof.
  unfold Demo.run, fit.
  assert (Hred : ∃ s1,
    @reduction (Demo.collaborators Demo.sources_c) (Demo.default_model 2)
      Demo.data1 Demo.state1 = (Ret (0%nat, [1%nat], [[[1%Q]]]), s1)).
  { eexists. vm_compute. reflexivity. }
  destruct Hred as [s1 Hred]. rewrite (bind_Ret _ _ _ _ _ Hred).
  unfold resolve_kurtosis_thr. simpl kurtosis_thr. cbv iota.
  rewrite (bind_Ret _ _ _ NegInf s1 eq_refl).
  pose proof (escalate_spins (H := Demo.collaborators Demo.sources_c) [[[1%Q]]] NegInf) as Hspin.
  unfold mbind, M_bind. rewrite (surjective_pairing (escalate _ _ _ _ _ _)).
  rewrite Hspin; [done| |simpl; lia].
  intros k rs s Hk. do 2 eexists.
  unfold escalation_turn, mbind, M_bind. simpl.
  change (count_true [false]) with 0%nat.
  replace (Z.of_nat 0 >=? k) with false by (symmetry; rewrite Z.geb_leb; apply Z.leb_gt; lia).
  reflexivity.
Qed.

(** * Further properties *)

(** ** [smooth_from_mask] *)

Lemma count_true_cons b mask :
  count_true (b :: mask) = ((if b then 1 else 0) + count_true mask)%nat.
Proof.
  unfold count_true. rewrite filter_cons. by destruct b.
Qed.

Lemma gather_cons x b map3d mask :
  gather (x :: map3d) (b :: mask) =
    if b then x :: gather map3d mask else gather map3d mask.
Proof.
  unfold gather. simpl. rewrite filter_cons. by destruct b.
Qed.

Lemma length_scatter map3d : ∀ mask this_map,
  length (scatter map3d mask this_map) = length map3d.
Proof.
  induction map3d as [|x map3d IH]; intros [|b mask] this_map; simpl; try done.
  destruct b; [destruct this_map|]; simpl; by rewrite IH.
Qed.

Lemma length_gather map3d : ∀ mask,
  length map3d = length mask -> length (gather map3d mask) = count_true mask.
Proof.
  induction map3d as [|x map3d IH]; intros [|b mask] Hlen; try done.
  rewrite gather_cons, count_true_cons. injection Hlen as Hlen.
  destruct b; simpl; by rewrite IH.
Qed.

Lemma gather_scatter map3d : ∀ mask this_map,
  length map3d = length mask -> length this_map = count_true mask ->
  gather (scatter map3d mask this_map) mask = this_map.
Proof.
  induction map3d as [|x map3d IH]; intros [|b mask] this_map Hlen Hcount; try done.
  - by destruct this_map.
  - injection Hlen as Hlen. rewrite count_true_cons in Hcount. simpl.
    destruct b.
    + destruct this_map as [|y rest]; [done|]. injection Hcount as Hcount.
      rewrite gather_cons. f_equal. by apply IH.
    + rewrite gather_cons. by apply IH.
Qed.

Lemma scatter_outside map3d : ∀ mask this_map i,
  mask !! i = Some false -> scatter map3d mask this_map !! i = map3d !! i.
Proof.
  induction map3d as [|x map3d IH]; intros [|b mask] this_map i Hi; try done.
  destruct i as [|i]; simpl in *.
  - injection Hi as ->. done.
  - destruct b; [destruct this_map|]; simpl; by apply IH.
Qed.

(** X1: in [smooth_from_mask], what [map3d[mask] = this_map] writes is what
    [map3d[mask]] reads: for a row with as many entries as the mask has true
    voxels, scattering it into a volume and gathering it again gives the row
    back; the volume keeps its size, and the voxels outside the mask keep
    their values. *)
Theorem scatter_then_gather (map3d : list Q) (mask : list bool) (this_map : vec) :
  length map3d = length mask ->
  length this_map = count_true mask ->
  gather (scatter map3d mask this_map) mask = this_map ∧
  length (scatter map3d mask this_map) = length map3d ∧
  ∀ i, mask !! i = Some false -> scatter map3d mask this_map !! i = map3d !! i.
Proof.
  intros Hlen Hcount. split_and!.
  - by apply gather_scatter.
  - apply length_scatter.
  - intros i Hi. by apply scatter_outside.
Qed.

Lemma scatter_then_gather_witness :
  gather (scatter [0; 7; 0]%Q Demo.mask0 [4; 5]%Q) Demo.mask0 = [4; 5]%Q ∧
  scatter [0; 7; 0]%Q Demo.mask0 [4; 5]%Q !! 1%nat = Some 7%Q.
Proof.
  destruct (scatter_then_gather [0; 7; 0]%Q Demo.mask0 [4; 5]%Q eq_refl eq_refl)
    as (Hround & _ & Hout).
  split; [exact Hround|]. exact (Hout 1%nat eq_refl).
Defined.

Lemma smooth_rows_shape `{Collaborators} mask voxels (data : matrix) :
  ∀ map3d data' e,
  smooth_rows mask voxels map3d data = (data', e) ->
  length data' = length data ∧
  (e = None ->
   Forall (fun r : vec => length r = count_true mask) data ∧
   Forall (fun r : vec => length r = count_true mask) data').
Proof.
  induction data as [|this_map rest IH]; intros map3d data' e Hrows; simpl in Hrows.
  - injection Hrows as <- <-. by repeat split.
  - destruct (Nat.eqb (length this_map) (count_true mask)) eqn:Hrow; simpl in Hrows.
    2: { injection Hrows as <- <-. split; [done|discriminate]. }
    apply Nat.eqb_eq in Hrow.
    destruct (Nat.eqb (length (gaussian_filter _ _)) (length mask)) eqn:Hvol;
      simpl in Hrows.
    2: { injection Hrows as <- <-. split; [done|discriminate]. }
    apply Nat.eqb_eq in Hvol.
    destruct (smooth_rows mask voxels _ rest) as [rest' e'] eqn:Hrest.
    injection Hrows as <- <-.
    destruct (IH _ _ _ Hrest) as [Hlen Hok]. split; [simpl; by rewrite Hlen|].
    intros ->. destruct (Hok eq_refl) as [Hin Hout]. split.
    + by constructor.
    + constructor; [|done]. by apply length_gather.
Qed.

(** X2: [smooth_from_mask] returns only if every row of the data has as many
    entries as the mask has true voxels, and the array it returns then has
    the shape of the data: as many rows, of as many entries. *)
Theorem smooth_from_mask_shape `{Collaborators} data mask voxels copy s l s' m :
  heap s !! data = Some m ->
  smooth_from_mask data mask voxels copy s = (Ret l, s') ->
  Forall (fun r : vec => length r = count_true mask) m ∧
  ∃ m', heap s' !! l = Some m' ∧ length m' = length m ∧
        Forall (fun r : vec => length r = count_true mask) m'.
Proof.
  intros Hdata Hsmooth. unfold smooth_from_mask in Hsmooth.
  apply bind_Ret_inv in Hsmooth as (l0 & s0 & Hcopy & Hsmooth).
  assert (Hl0 : heap s0 !! l0 = Some m).
  { destruct copy.
    - apply bind_Ret_inv in Hcopy as (m0 & s1 & Hload & Halloc).
      unfold load in Hload. rewrite Hdata in Hload. injection Hload as <- <-.
      unfold alloc in Halloc. injection Halloc as <- <-. simpl.
      apply lookup_insert_eq.
    - by injection Hcopy as <- <-. }
  apply bind_Ret_inv in Hsmooth as (rows & s1 & Hload & Hsmooth).
  unfold load in Hload. rewrite Hl0 in Hload. injection Hload as <- <-.
  destruct (smooth_rows _ _ _ m) as [rows' e] eqn:Hrows.
  apply bind_Ret_inv in Hsmooth as ([] & s2 & Hstore & Hret).
  unfold store in Hstore. injection Hstore as <-.
  destruct e as [e|]; [discriminate|]. injection Hret as <- <-.
  destruct (smooth_rows_shape _ _ _ _ _ _ Hrows) as [Hlen Hok].
  destruct (Hok eq_refl) as [Hin Hout]. split; [done|].
  exists rows'. simpl. by rewrite lookup_insert_eq.
Qed.

Lemma smooth_from_mask_shape_witness :
  ∃ m', heap (@smooth_from_mask (Demo.collaborators Demo.sources_a)
                0%nat Demo.mask0 1 true Demo.state0).2 !! 2%nat = Some m' ∧
        length m' = 2%nat.
Proof.
  destruct (smooth_from_mask_shape (H := Demo.collaborators Demo.sources_a)
              0%nat Demo.mask0 1%Q true Demo.state0 2%nat
              (@smooth_from_mask (Demo.collaborators Demo.sources_a)
                 0%nat Demo.mask0 1 true Demo.state0).2 Demo.subject1 eq_refl)
    as (_ & m' & Hm' & Hlen & _).
  - vm_compute. reflexivity.
  - exists m'. by split.
Defined.

(** X3: with [copy=True], [smooth_from_mask] leaves the data as it is and
    returns a new array; with [copy=False] it returns the data itself. *)
Theorem smooth_from_mask_copy `{Collaborators} data mask voxels s m :
  heap s !! data = Some m ->
  (heap (smooth_from_mask data mask voxels true s).2 !! data = Some m ∧
   ∀ l, (smooth_from_mask data mask voxels true s).1 = Ret l ->
        l ≠ data ∧ heap s !! l = None) ∧
  (∀ l, (smooth_from_mask data mask voxels false s).1 = Ret l -> l = data).
Proof.
  intros Hdata. split.
  - unfold smooth_from_mask, mbind, M_bind, load, alloc. rewrite Hdata. simpl.
    rewrite lookup_insert_eq.
    assert (Hfresh : heap s !! fresh (dom (heap s)) = None).
    { apply not_elem_of_dom, is_fresh. }
    assert (Hne : fresh (dom (heap s)) ≠ data) by congruence.
    destruct (smooth_rows _ _ _ m) as [rows' [e|]]; simpl.
    + rewrite lookup_insert_ne, lookup_insert_ne by done. by split.
    + rewrite lookup_insert_ne, lookup_insert_ne by done.
      split; [done|]. by intros l [= <-].
  - unfold smooth_from_mask, mbind, M_bind, load. simpl. rewrite Hdata.
    destruct (smooth_rows _ _ _ m) as [rows' [e|]]; simpl; [done|].
    by intros l [= <-].
Qed.

Lemma smooth_from_mask_copy_witness :
  heap (@smooth_from_mask (Demo.collaborators Demo.sources_a)
          0%nat Demo.mask0 1 true Demo.state0).2 !! 0%nat = Some Demo.subject1.
Proof.
  exact (proj1 (proj1 (smooth_from_mask_copy (H := Demo.collaborators Demo.sources_a)
                         0%nat Demo.mask0 1%Q Demo.state0 Demo.subject1 eq_refl))).
Defined.

(** ** The reduction of the subjects *)

Lemma sum_shift (c : Q) (v : vec) :
  (np.sum (map (fun x => x - c) v) == np.sum v - inject_Z (Z.of_nat (length v)) * c)%Q.
Proof.
  induction v as [|x v IH]; simpl np.sum.
  - simpl. ring.
  - rewrite IH. simpl length. rewrite Nat2Z.inj_succ, <- Z.add_1_r, inject_Z_plus. ring.
Qed.

Lemma nth_zip_with_minus (r μ : vec) j :
  (j < length r)%nat -> (j < length μ)%nat ->
  nth j (zip_with Qminus r μ) 0%Q = (nth j r 0 - nth j μ 0)%Q.
Proof.
  revert μ j. induction r as [|x r IH]; intros [|y μ] [|j] Hr Hμ; simpl in *;
    try lia; [done|]. apply IH; lia.
Qed.

Lemma column_sub_rows (m : matrix) (μ : vec) j :
  Forall (fun r : vec => length r = length μ) m -> (j < length μ)%nat ->
  np.column j (np.sub_rows m μ) = map (fun x => (x - nth j μ 0)%Q) (np.column j m).
Proof.
  intros Hm Hj. unfold np.column, np.sub_rows. rewrite !map_map.
  apply map_ext_in. intros r Hr. rewrite Forall_forall in Hm.
  apply nth_zip_with_minus; [|done]. rewrite (Hm r); [done|by apply list_elem_of_In].
Qed.

Lemma length_mean_axis0 m : length (np.mean_axis0 m) = np.shape1 m.
Proof. unfold np.mean_axis0, np.transpose. by rewrite !length_map, length_seq. Qed.

Lemma nth_mean_axis0 m j :
  (j < np.shape1 m)%nat -> nth j (np.mean_axis0 m) 0%Q = np.mean (np.column j m).
Proof.
  intros Hj. unfold np.mean_axis0, np.transpose. rewrite map_map.
  rewrite (nth_indep _ 0%Q (np.mean (np.column 0 m)))
    by (by rewrite length_map, length_seq).
  rewrite (map_nth (fun j => np.mean (np.column j m)) (seq 0 (np.shape1 m)) 0%nat j).
  by rewrite seq_nth.
Qed.

(** X4: the centring of lines 100 and 107, [subject_data -=
    subject_data.mean(axis=0)], leaves every column of a 2-D array with mean
    zero. *)
Theorem centring_zero_mean (subject_data : matrix) :
  rectangular subject_data ->
  Forall (fun x => (x == 0)%Q)
    (np.mean_axis0 (np.sub_rows subject_data (np.mean_axis0 subject_data))).
Proof.
  intros [Hne Hrect].
  assert (Hshape : np.shape1 (np.sub_rows subject_data (np.mean_axis0 subject_data))
                   = np.shape1 subject_data).
  { destruct subject_data as [|r m]; [done|].
    unfold np.sub_rows. cbn [map np.shape1].
    rewrite length_zip_with, length_mean_axis0. simpl. lia. }
  unfold np.mean_axis0 at 1. unfold np.transpose. rewrite Hshape, map_map.
  apply Forall_forall. intros x Hx. apply list_elem_of_In, in_map_iff in Hx.
  destruct Hx as (j & <- & Hj). apply in_seq in Hj.
  rewrite column_sub_rows.
  2: { by rewrite length_mean_axis0. }
  2: { rewrite length_mean_axis0. lia. }
  rewrite nth_mean_axis0 by lia.
  unfold np.mean at 1. rewrite sum_shift, length_map.
  assert (Hlen : length (np.column j subject_data) = length subject_data).
  { unfold np.column. by rewrite length_map. }
  unfold np.mean. rewrite Hlen.
  assert (Hn : ¬ (inject_Z (Z.of_nat (length subject_data)) == 0)%Q).
  { destruct subject_data; [done|]. simpl length. rewrite Nat2Z.inj_succ.
    unfold Qeq. simpl. lia. }
  field. exact Hn.
Qed.

Lemma centring_zero_mean_witness :
  Forall (fun x => (x == 0)%Q)
    (np.mean_axis0 (np.sub_rows Demo.subject1 (np.mean_axis0 Demo.subject1))).
Proof.
  apply centring_zero_mean. split; [discriminate|]. repeat constructor.
Defined.

(** X5: what the reduction of a subject leaves in the array it was given,
    which is the array that [learn_from_maps] receives at the end of [fit].
    Without smoothing it is the centred data divided by the standard
    deviations.  With smoothing it is the centred data as [smooth_from_mask]
    left it: the second centring and the standardization are done on a copy
    (line 106) and do not reach it. *)
Theorem reduce_subject_leaves `{Collaborators} self subject_data s m :
  heap s !! subject_data = Some m ->
  (truthy (smooth self) = false ->
   heap (reduce_subject self subject_data s).2 !! subject_data =
     Some (standardize (np.sub_rows m (np.mean_axis0 m)))) ∧
  (truthy (smooth self) = true -> ∀ msk, mask self = Some msk ->
   heap (reduce_subject self subject_data s).2 !! subject_data =
     Some (smooth_rows msk (default 0%Q (smooth self)) (repeat 0%Q (length msk))
             (np.sub_rows m (np.mean_axis0 m))).1).
Proof.
  intros Hdata. split.
  - intros Hsmooth.
    unfold reduce_subject, mbind, M_bind, load, store, emit. rewrite Hdata. simpl.
    rewrite Hsmooth. simpl.
    destruct (svd_U _) as [e|u]; simpl; by rewrite lookup_insert_eq.
  - intros Hsmooth msk Hmask.
    unfold reduce_subject, smooth_from_mask, mbind, M_bind, load, store, emit, alloc.
    rewrite Hdata. simpl. rewrite Hsmooth, Hmask. simpl.
    rewrite lookup_insert_eq.
    destruct (smooth_rows _ _ _ _) as [rows' [e|]]; simpl.
    + by rewrite lookup_insert_eq.
    + rewrite lookup_insert_eq. simpl.
      set (h := <[subject_data := rows']> _).
      assert (Hne : fresh (dom h) ≠ subject_data).
      { intros Heq. apply (is_fresh (dom h)). rewrite Heq.
        apply elem_of_dom. exists rows'. unfold h. apply lookup_insert_eq. }
      destruct (svd_U _) as [e|u]; simpl;
        rewrite !lookup_insert_ne by done; unfold h; apply lookup_insert_eq.
Qed.

Lemma reduce_subject_leaves_witness :
  heap (@reduce_subject (Demo.collaborators Demo.sources_a)
          (Demo.smoothing_model 2) 0%nat Demo.state0).2 !! 0%nat =
  Some (@smooth_rows (Demo.collaborators Demo.sources_a) Demo.mask0 1
          (repeat 0%Q 3) (np.sub_rows Demo.subject1 (np.mean_axis0 Demo.subject1))).1.
Proof.
  exact (proj2 (reduce_subject_leaves (H := Demo.collaborators Demo.sources_a)
                  (Demo.smoothing_model 2) 0%nat Demo.state0 Demo.subject1 eq_refl)
           eq_refl Demo.mask0 eq_refl).
Defined.

Lemma copy_planes_length planes : ∀ s ls s',
  copy_planes planes s = (Ret ls, s') -> length ls = length planes.
Proof.
  induction planes as [|p rest IH]; intros s ls s' Hcopy; simpl in Hcopy.
  - by injection Hcopy as <- _.
  - apply bind_Ret_inv in Hcopy as (m & s1 & _ & Hcopy).
    apply bind_Ret_inv in Hcopy as (p' & s2 & _ & Hcopy).
    apply bind_Ret_inv in Hcopy as (rest' & s3 & Hrest & Hret).
    injection Hret as <- _. simpl. f_equal. by eapply IH.
Qed.

Lemma deepcopy_items_length items : ∀ memo s ls s',
  deepcopy_items memo items s = (Ret ls, s') -> length ls = length items.
Proof.
  induction items as [|i rest IH]; intros memo s ls s' Hcopy; simpl in Hcopy.
  - by injection Hcopy as <- _.
  - destruct (list_find _ memo) as [[k [i0 i']]|].
    + apply bind_Ret_inv in Hcopy as (rest' & s1 & Hrest & Hret).
      injection Hret as <- _. simpl. f_equal. by eapply IH.
    + apply bind_Ret_inv in Hcopy as (m & s1 & _ & Hcopy).
      apply bind_Ret_inv in Hcopy as (p' & s2 & _ & Hcopy).
      apply bind_Ret_inv in Hcopy as (rest' & s3 & Hrest & Hret).
      injection Hret as <- _. simpl. f_equal. by eapply IH.
Qed.

Lemma copy_data_length data s ls s' :
  copy_data data s = (Ret ls, s') -> length ls = length (subjects data).
Proof.
  destruct data as [planes|items|items]; simpl.
  - apply copy_planes_length.
  - by intros [= <- _].
  - apply deepcopy_items_length.
Qed.

Lemma reduce_subject_width `{Collaborators} self subject_data s p s' :
  0 <= n_components self ->
  reduce_subject self subject_data s = (Ret p, s') ->
  Forall (fun r : vec => (length r <= Z.to_nat (2 * n_components self))%nat) p.
Proof.
  intros Hn Hred. unfold reduce_subject in Hred.
  apply bind_Ret_inv in Hred as (m & s1 & _ & Hred).
  apply bind_Ret_inv in Hred as ([] & s2 & _ & Hred).
  apply bind_Ret_inv in Hred as ([sd m'] & s3 & _ & Hred).
  apply bind_Ret_inv in Hred as ([] & s4 & _ & Hred).
  apply bind_Ret_inv in Hred as ([] & s5 & _ & Hred).
  apply bind_Ret_inv in Hred as (u & s6 & _ & Hret).
  injection Hret as <- _. unfold np.cols_to. apply Forall_fmap, Forall_forall.
  intros r _. simpl. unfold np.slice_to.
  replace (0 <=? 2 * n_components self) with true by (symmetry; apply Z.leb_le; lia).
  rewrite length_take. lia.
Qed.

Lemma reduce_subjects_bases `{Collaborators} self data : ∀ pcas s out s',
  0 <= n_components self ->
  reduce_subjects self data pcas s = (Ret out, s') ->
  ∃ new, out = pcas ++ new ∧ length new = length data ∧
    Forall (Forall (fun r : vec =>
      (length r <= Z.to_nat (2 * n_components self))%nat)) new.
Proof.
  induction data as [|l rest IH]; intros pcas s out s' Hn Hred; simpl in Hred.
  - injection Hred as <- _. exists []. by rewrite app_nil_r.
  - apply bind_Ret_inv in Hred as (p & s1 & Hp & Hrest).
    apply IH in Hrest as (new & -> & Hlen & Hwidth); [|done].
    exists (p :: new). rewrite <- app_assoc. split_and!; [done|simpl; by rewrite Hlen|].
    constructor; [|done]. by eapply reduce_subject_width.
Qed.

(** X6: when the reduction of lines 89-117 completes, it has made one
    private array and one basis per subject, and no row of a basis has more
    than [2 * n_components] entries. *)
Theorem reduction_bases `{Collaborators} self data s random_state data' pcas s1 :
  0 <= n_components self ->
  reduction self data s = (Ret (random_state, data', pcas), s1) ->
  length data' = length (subjects data) ∧
  length pcas = length (subjects data) ∧
  Forall (Forall (fun r : vec =>
    (length r <= Z.to_nat (2 * n_components self))%nat)) pcas.
Proof.
  intros Hn Hred. unfold reduction in Hred.
  apply bind_Ret_inv in Hred as (rs & s2 & _ & Hred).
  apply bind_Ret_inv in Hred as (ls & s3 & Hcopy & Hred).
  apply bind_Ret_inv in Hred as (out & s4 & Hsubjects & Hret).
  injection Hret as _ <- <- _.
  apply copy_data_length in Hcopy.
  apply reduce_subjects_bases in Hsubjects as (new & -> & Hlen & Hwidth); [|done].
  simpl. by rewrite Hlen, Hcopy.
Qed.

Lemma reduction_bases_witness :
  ∃ r, (@reduction (Demo.collaborators Demo.sources_a) (Demo.default_model 2)
          Demo.data0 Demo.state0).1 = Ret r ∧
       length r.1.2 = 2%nat ∧ length r.2 = 2%nat ∧
       Forall (Forall (fun r : vec => (length r <= 4)%nat)) r.2.
Proof.
  destruct (@reduction (Demo.collaborators Demo.sources_a) (Demo.default_model 2)
              Demo.data0 Demo.state0) as [[[[rs data'] pcas]|e|] s1] eqn:Hred;
    try (vm_compute in Hred; discriminate Hred).
  destruct (reduction_bases (H := Demo.collaborators Demo.sources_a)
              (Demo.default_model 2) Demo.data0 Demo.state0 rs data' pcas s1
              ltac:(simpl; lia) Hred) as (Hdata & Hpcas & Hwidth).
  exists (rs, data', pcas). by split_and!.
Defined.

(** ** The copy of the data *)

Lemma agrees_alloc s m :
  agrees (heap s) (alloc m s).2 ∧
  heap (alloc m s).2 !! fresh (dom (heap s)) = Some m.
Proof.
  split; [|apply lookup_insert_eq].
  intros l m' Hl. simpl. rewrite lookup_insert_ne; [done|].
  intros <-. apply (is_fresh (dom (heap s))). apply elem_of_dom. eauto.
Qed.

Lemma agrees_trans s1 s2 s3 :
  agrees (heap s1) s2 -> agrees (heap s2) s3 -> agrees (heap s1) s3.
Proof. intros H12 H23 l m Hl. by apply H23, H12. Qed.

Lemma agrees_lookup s s' l :
  agrees (heap s) s' -> is_Some (heap s !! l) -> heap s' !! l = heap s !! l.
Proof. intros Hag [m Hm]. rewrite Hm. by apply Hag. Qed.

Lemma Forall2_impl_l {A B} (P R : A -> B -> Prop) (Q : A -> Prop) l k :
  Forall2 P l k -> Forall Q l -> (∀ x y, P x y -> Q x -> R x y) -> Forall2 R l k.
Proof.
  intros HP HQ Himp. induction HP as [|x y l k Hxy _ IH]; [constructor|].
  apply Forall_cons in HQ as [Hx HQ]. constructor; auto.
Qed.

Lemma copy_planes_faithful planes : ∀ s ls s',
  Forall (fun l => is_Some (heap s !! l)) planes ->
  copy_planes planes s = (Ret ls, s') ->
  agrees (heap s) s' ∧ Forall2 (fun l l' => heap s' !! l' = heap s !! l) planes ls.
Proof.
  induction planes as [|p rest IH]; intros s ls s' Hplanes Hcopy; simpl in Hcopy.
  - injection Hcopy as <- <-. split; [apply agrees_refl|constructor].
  - apply Forall_cons in Hplanes as [[m Hp] Hrest].
    apply bind_Ret_inv in Hcopy as (m0 & s1 & Hload & Hcopy).
    unfold load in Hload. rewrite Hp in Hload. injection Hload as <- <-.
    apply bind_Ret_inv in Hcopy as (p' & s2 & Halloc & Hcopy).
    destruct (agrees_alloc s m) as [Hag2 Hp'].
    set (s2' := (alloc m s).2) in *.
    assert (s2 = s2' ∧ p' = fresh (dom (heap s))) as [-> ->]
      by (by injection Halloc as <- <-).
    apply bind_Ret_inv in Hcopy as (rest' & s3 & Hcopy & Hret).
    injection Hret as <- <-.
    apply IH in Hcopy as [Hag3 Hall].
    2: { eapply Forall_impl; [exact Hrest|]. intros l [m' Hl]. exists m'. by apply Hag2. }
    split; [by eapply agrees_trans|]. constructor.
    + rewrite Hp. by apply Hag3.
    + eapply Forall2_impl_l; [exact Hall|exact Hrest|].
      intros l l' Hl Hsome. rewrite Hl. by apply (agrees_lookup s s2').
Qed.

Lemma deepcopy_items_faithful items : ∀ memo s ls s',
  Forall (fun l => is_Some (heap s !! l)) items ->
  Forall (fun p : nat * nat =>
    heap s !! p.2 = heap s !! p.1 ∧ is_Some (heap s !! p.1)) memo ->
  deepcopy_items memo items s = (Ret ls, s') ->
  agrees (heap s) s' ∧ Forall2 (fun l l' => heap s' !! l' = heap s !! l) items ls.
Proof.
  induction items as [|i rest IH]; intros memo s ls s' Hitems Hmemo Hcopy;
    simpl in Hcopy.
  - injection Hcopy as <- <-. split; [apply agrees_refl|constructor].
  - apply Forall_cons in Hitems as [[m Hi] Hrest].
    destruct (list_find _ memo) as [[k [i0 i']]|] eqn:Hfind.
    + apply list_find_Some in Hfind as (Hk & Hi0 & _). simpl in Hi0. subst i0.
      apply bind_Ret_inv in Hcopy as (rest' & s1 & Hcopy & Hret).
      injection Hret as <- <-.
      apply IH in Hcopy as [Hag Hall]; [|done..].
      split; [done|]. constructor; [|done].
      destruct (Forall_lookup_1 _ _ _ _ Hmemo Hk) as [Hsame Hsome]. simpl in *.
      rewrite <- Hsame. apply agrees_lookup; [done|]. by rewrite Hsame.
    + apply bind_Ret_inv in Hcopy as (m0 & s1 & Hload & Hcopy).
      unfold load in Hload. rewrite Hi in Hload. injection Hload as <- <-.
      apply bind_Ret_inv in Hcopy as (i' & s2 & Halloc & Hcopy).
      destruct (agrees_alloc s m) as [Hag2 Hi'].
      set (s2' := (alloc m s).2) in *.
      assert (s2 = s2' ∧ i' = fresh (dom (heap s))) as [-> ->]
        by (by injection Halloc as <- <-).
      apply bind_Ret_inv in Hcopy as (rest' & s3 & Hcopy & Hret).
      injection Hret as <- <-.
      apply IH in Hcopy as [Hag3 Hall].
      * split; [by eapply agrees_trans|]. constructor.
        -- rewrite Hi. by apply Hag3.
        -- eapply Forall2_impl_l; [exact Hall|exact Hrest|].
           intros l l' Hl Hsome. rewrite Hl. by apply (agrees_lookup s s2').
      * eapply Forall_impl; [exact Hrest|]. intros l [m' Hl]. exists m'. by apply Hag2.
      * constructor.
        -- cbn [fst snd]. rewrite Hi'. split; [symmetry|exists m]; by apply Hag2.
        -- eapply Forall_impl; [exact Hmemo|]. intros [j j'] [Hsame Hsome].
           cbn [fst snd] in *.
           rewrite !(agrees_lookup s s2') by (done || by rewrite Hsame). by split.
Qed.

(** X7: the copy that [fit] makes of its data (lines 91-96) starts equal to
    the data: when every subject of the data is an array of the store, the
    array that the copy holds for a subject has the contents of that
    subject's array, and the arrays of the store are as they were. *)
Theorem copy_data_faithful data s data' s' :
  Forall (fun l => is_Some (heap s !! l)) (subjects data) ->
  copy_data data s = (Ret data', s') ->
  Forall2 (fun l l' => heap s' !! l' = heap s !! l) (subjects data) data' ∧
  ∀ l m, heap s !! l = Some m -> heap s' !! l = Some m.
Proof.
  intros Hsubjects Hcopy. destruct data as [planes|items|items]; simpl in *.
  - apply copy_planes_faithful in Hcopy as [Hag Hall]; [|done]. by split.
  - injection Hcopy as <- <-. split; [|done].
    apply Forall_Forall2_diag, Forall_forall. done.
  - apply deepcopy_items_faithful in Hcopy as [Hag Hall]; [|done|constructor].
    by split.
Qed.

Lemma copy_data_faithful_witness :
  Forall2 (fun l l' => heap (copy_data Demo.data0 Demo.state0).2 !! l' =
                       heap Demo.state0 !! l) [0%nat; 1%nat] [2%nat; 3%nat].
Proof.
  refine (proj1 (copy_data_faithful Demo.data0 Demo.state0 [2%nat; 3%nat] _ _ _)).
  - repeat constructor; eexists; reflexivity.
  - vm_compute. reflexivity.
Defined.

(** ** Where [fit] gives up *)

(** X8: with smoothing asked for and no mask, [fit] on data with at least
    one subject fails the assertion of line 102 at the first subject, after
    centring its copy and before any call to a collaborator: nothing is
    printed or called, and [maps_] is not touched. *)
Theorem fit_smooth_without_mask `{Collaborators} fuel self data s rs l rest s1 :
  truthy (smooth self) = true ->
  mask self = None ->
  check_random_state (random_state self) = inr rs ->
  copy_data data s = (Ret (l :: rest), s1) ->
  is_Some (heap s1 !! l) ->
  (fit fuel self data s).1 = Raise AssertionError ∧
  trace (fit fuel self data s).2 = trace s1 ∧
  maps_ (fit fuel self data s).2 = maps_ s1.
Proof.
  intros Hsmooth Hmask Hcheck Hcopy [m Hl].
  unfold fit, reduction, mbind, M_bind. rewrite Hcheck. simpl. rewrite Hcopy.
  simpl. unfold reduce_subject, mbind, M_bind, load. rewrite Hl. simpl.
  rewrite Hsmooth, Hmask. by simpl.
Qed.

Lemma fit_smooth_without_mask_witness :
  (Demo.run Demo.sources_a 5 (Demo.model 2 (Some 1%Q) PyFalse)
     Demo.data0 Demo.state0).1 = Raise AssertionError.
Proof.
  refine (proj1 (fit_smooth_without_mask (H := Demo.collaborators Demo.sources_a)
                   5 (Demo.model 2 (Some 1%Q) PyFalse) Demo.data0 Demo.state0
                   0%nat 2%nat [3%nat] (copy_data Demo.data0 Demo.state0).2
                   eq_refl eq_refl eq_refl _ _)).
  - vm_compute. reflexivity.
  - eexists. vm_compute. reflexivity.
Defined.

(** X9: on data without any subject, [fit] with a positive [n_components]
    and the default [kurtosis_thr] enters the loop and raises the
    [ValueError] of [np.concatenate], which is given no array; the state is
    as it was. *)
Theorem fit_no_subject `{Collaborators} fuel self data s rs :
  subjects data = [] ->
  check_random_state (random_state self) = inr rs ->
  kurtosis_thr self = PyFalse ->
  0 < n_components self ->
  fit (S fuel) self data s =
    (Raise (ValueError "need at least one array to concatenate"), s).
Proof.
  intros Hdata Hcheck Hthr Hn.
  assert (Hcopy : copy_data data s = (Ret [], s)).
  { destruct data; simpl in Hdata; by subst. }
  unfold fit, reduction, mbind, M_bind. rewrite Hcheck. simpl. rewrite Hcopy. simpl.
  unfold resolve_kurtosis_thr. rewrite Hthr. simpl.
  replace (n_components self <? 3 * n_components self) with true
    by (symmetry; by apply while_condition).
  by destruct s.
Qed.

Lemma fit_no_subject_witness :
  Demo.run Demo.sources_a 1 (init 2 None None None None None None)
    (PyList []) Demo.state0 =
  (Raise (ValueError "need at least one array to concatenate"), Demo.state0).
Proof.
  apply (fit_no_subject (H := Demo.collaborators Demo.sources_a) 0
           (init 2 None None None None None None) (PyList []) Demo.state0 0%nat);
    (reflexivity || (simpl; lia)).
Defined.

(** X10: with an [n_components] that is not positive and the default
    [kurtosis_thr], a call to [fit] whose reduction of the subjects completes
    does not enter the loop and raises the [ValueError] of its [else] branch,
    in the state the reduction left: no aggregation, no extraction. *)
Theorem fit_not_positive `{Collaborators} fuel self data s r s1 :
  n_components self <= 0 ->
  kurtosis_thr self = PyFalse ->
  reduction self data s = (Ret r, s1) ->
  fit (S fuel) self data s =
    (Raise (ValueError "Could not find components with high-enough kurtosis"), s1).
Proof.
  intros Hn Hthr Hred. unfold fit. rewrite (bind_Ret _ _ _ _ _ Hred).
  destruct r as [[rs data'] pcas].
  unfold resolve_kurtosis_thr. rewrite Hthr.
  rewrite (bind_Ret _ _ _ NegInf s1 eq_refl).
  unfold mbind, M_bind. by rewrite escalate_not_positive.
Qed.

Lemma fit_not_positive_witness :
  (Demo.run Demo.sources_a 1 (Demo.default_model 0) Demo.data0 Demo.state0).1 =
  Raise (ValueError "Could not find components with high-enough kurtosis").
Proof.
  destruct (@reduction (Demo.collaborators Demo.sources_a) (Demo.default_model 0)
              Demo.data0 Demo.state0) as [[r|e|] s1] eqn:Hred;
    try (vm_compute in Hred; discriminate Hred).
  unfold Demo.run.
  by rewrite (fit_not_positive (H := Demo.collaborators Demo.sources_a) 0
                (Demo.default_model 0) Demo.data0 Demo.state0 r s1
                ltac:(simpl; lia) eq_refl Hred).
Defined.

(** ** What a turn of the loop keeps *)

Lemma count_true_all (l : list bool) :
  count_true l = length l -> Forall (fun b => b = true) l.
Proof.
  induction l as [|b l IH]; intros Hcount; [constructor|].
  rewrite count_true_cons in Hcount. simpl in Hcount.
  pose proof (length_filter (fun b => b = true) l) as Hle.
  fold (count_true l) in Hle.
  destruct b; [|lia]. constructor; [done|]. apply IH. lia.
Qed.

Lemma fmap_nth_seq (m : matrix) :
  (fun i => nth i m []) <$> seq 0 (length m) = m.
Proof.
  apply list_eq. intros i. rewrite list_lookup_fmap.
  destruct (decide (i < length m)%nat) as [Hi|Hi].
  - rewrite lookup_seq_lt by done. simpl.
    destruct (lookup_lt_is_Some_2 m i Hi) as [r Hr].
    by rewrite Hr, (nth_lookup_Some _ _ _ _ Hr).
  - rewrite lookup_seq_ge, lookup_ge_None_2 by lia. done.
Qed.

Lemma take_rows_fmap (m : matrix) (idx : list nat) rows :
  np.take_rows m idx = inr rows -> rows = (fun i => nth i m []) <$> idx.
Proof.
  intros Hrows. unfold np.take_rows in Hrows.
  destruct (mapM _ idx) as [rows'|] eqn:Hmap; [|discriminate].
  injection Hrows as ->. apply mapM_Some_1 in Hmap.
  induction Hmap as [|i r idx rows Hr _ IH]; [done|].
  simpl. by rewrite (nth_lookup_Some _ _ _ _ Hr), IH.
Qed.

Lemma take_rows_perm (m : matrix) (idx : list nat) rows :
  np.take_rows m idx = inr rows -> idx ≡ₚ seq 0 (length m) -> rows ≡ₚ m.
Proof.
  intros Hrows Hperm. rewrite (take_rows_fmap _ _ _ Hrows), Hperm.
  by rewrite fmap_nth_seq.
Qed.

(** X11: when FastICA returns as many sources as the current count asks
    for, a turn that leaves the loop drops no candidate: the rows it keeps
    are the candidates, rearranged, and the kurtosis of each of them passes
    the threshold. *)
Theorem turn_keeps_every_candidate `{Collaborators}
    pcas thr k rs s a g src rs' ica_maps s' :
  0 <= k ->
  np.concatenate1 pcas = inr a ->
  randomized_svd_U a k = inr g ->
  fastica_S (np.cols_to k g) rs = inr (src, rs') ->
  length (np.transpose src) = Z.to_nat k ->
  escalation_turn pcas thr k rs s = (Ret (Break ica_maps), s') ->
  ica_maps ≡ₚ np.transpose src ∧
  Forall (fun r => score_gt (stats_kurtosis r) thr = true) ica_maps.
Proof.
  intros Hk Ha Hg Hsrc Hlen Hturn.
  unfold escalation_turn, mbind, M_bind in Hturn.
  rewrite Ha in Hturn. simpl in Hturn. rewrite Hg in Hturn. simpl in Hturn.
  rewrite Hsrc in Hturn. simpl in Hturn.
  destruct (_ >=? _) eqn:Hacc; [|discriminate].
  destruct (np.take_rows _ _) as [e|rows] eqn:Hrows; [discriminate|].
  simpl in Hturn. injection Hturn as <- _.
  set (cands := np.transpose src) in *.
  set (kurt := map stats_kurtosis cands) in *.
  assert (Hall : Forall (fun r => score_gt (stats_kurtosis r) thr = true) cands).
  { apply Z.geb_le in Hacc.
    pose proof (length_filter (fun b => b = true)
                  (map (fun x => score_gt x thr) kurt)) as Hle.
    fold (count_true (map (fun x => score_gt x thr) kurt)) in Hle.
    assert (Hcount : count_true (map (fun x => score_gt x thr) kurt)
                     = length (map (fun x => score_gt x thr) kurt)).
    { unfold kurt in *. rewrite !length_map in *. lia. }
    apply count_true_all in Hcount. unfold kurt in Hcount. fmapify.
    by rewrite !Forall_fmap in Hcount. }
  assert (Hperm : rows ≡ₚ cands).
  { apply (take_rows_perm _ _ _ Hrows). unfold np.slice_to.
    replace (0 <=? k) with true by (symmetry; apply Z.leb_le; lia).
    rewrite take_ge.
    - rewrite <- Permutation_rev, argsort_perm. unfold kurt. by rewrite length_map.
    - rewrite length_rev, (Permutation_length (argsort_perm _)), length_seq.
      unfold kurt. rewrite length_map. lia. }
  split; [done|]. by rewrite Hperm.
Qed.

Lemma turn_keeps_every_candidate_witness :
  [[0; 1]; [1; 0]]%Q ≡ₚ np.transpose (Demo.sources_a 2) ∧
  Forall (fun r => score_gt (Demo.stats_kurtosis r) NegInf = true) [[0; 1]; [1; 0]]%Q.
Proof.
  apply (turn_keeps_every_candidate (H := Demo.collaborators Demo.sources_a)
           [Demo.identity 2; Demo.identity 2] NegInf 2 0%nat Demo.state0
           [[1; 0; 1; 0]; [0; 1; 0; 1]]%Q [[1; 0]; [0; 1]]%Q
           (Demo.sources_a 2) 1%nat [[0; 1]; [1; 0]]%Q
           (@escalation_turn (Demo.collaborators Demo.sources_a)
              [Demo.identity 2; Demo.identity 2] NegInf 2 0%nat Demo.state0).2).
  - lia.
  - vm_compute. reflexivity.
  - vm_compute. reflexivity.
  - vm_compute. reflexivity.
  - vm_compute. reflexivity.
  - reflexivity.
Defined.

(** ** What [fit] publishes, and when *)

(** X12: when the first turn of the loop is accepted, [maps_] is the
    thresholded selection of that turn and has exactly [n_components] rows. *)
Theorem fit_first_turn `{Collaborators}
    fuel self data s rs data' pcas s1 ica_maps s2 :
  kurtosis_thr self = PyFalse ->
  0 < n_components self ->
  reduction self data s = (Ret (rs, data', pcas), s1) ->
  escalation_turn pcas NegInf (n_components self) rs s1 = (Ret (Break ica_maps), s2) ->
  maps_ (fit (S fuel) self data s).2 = Some (threshold_maps (threshold self) ica_maps) ∧
  length (threshold_maps (threshold self) ica_maps) = Z.to_nat (n_components self).
Proof.
  intros Hthr Hn Hred Hturn. split.
  - unfold fit. rewrite (bind_Ret _ _ _ _ _ Hred).
    unfold resolve_kurtosis_thr. rewrite Hthr.
    rewrite (bind_Ret (mret NegInf) _ s1 NegInf s1 eq_refl).
    assert (Hloop : escalate (S fuel) pcas NegInf (n_components self) rs s1
                    = (Ret ica_maps, s2)).
    { simpl. replace (n_components self <? 3 * n_components self) with true
        by (symmetry; by apply while_condition).
      by rewrite (bind_Ret _ _ _ _ _ Hturn). }
    rewrite (bind_Ret _ _ _ _ _ Hloop).
    rewrite (bind_Ret (set_maps_ (threshold_maps (threshold self) ica_maps)) _ s2 tt
               _ eq_refl).
    destruct (maps_only self); [done|]. apply relearn_state.
  - unfold threshold_maps, np.zero_below. rewrite length_map.
    eapply escalation_turn_Break; [|exact Hturn]. lia.
Qed.

Lemma fit_first_turn_witness :
  maps_ (Demo.run Demo.sources_a 1 (Demo.default_model 2) Demo.data0 Demo.state0).2
    = Some (@threshold_maps (Demo.collaborators Demo.sources_a) 1 [[0; 1]; [1; 0]]%Q) ∧
  length (@threshold_maps (Demo.collaborators Demo.sources_a) 1 [[0; 1]; [1; 0]]%Q)
    = 2%nat.
Proof.
  apply (fit_first_turn (H := Demo.collaborators Demo.sources_a) 0
           (Demo.default_model 2) Demo.data0 Demo.state0 0%nat [2%nat; 3%nat]
           [Demo.identity 2; Demo.identity 2]
           (@reduction (Demo.collaborators Demo.sources_a) (Demo.default_model 2)
              Demo.data0 Demo.state0).2
           [[0; 1]; [1; 0]]%Q
           (@escalation_turn (Demo.collaborators Demo.sources_a)
              [Demo.identity 2; Demo.identity 2] NegInf 2 0%nat
              (@reduction (Demo.collaborators Demo.sources_a) (Demo.default_model 2)
                 Demo.data0 Demo.state0).2).2).
  - reflexivity.
  - simpl. lia.
  - vm_compute. reflexivity.
  - reflexivity.
Defined.

Lemma mapM_load (ls : list nat) s :
  mapM load ls s =
    (match mapM (fun l => heap s !! l) ls with
     | Some ms => Ret ms
     | None => Raise TypeError
     end, s).
Proof.
  induction ls as [|l ls IH]; [done|].
  change (mapM load (l :: ls) s)
    with ((load l ≫= fun y => mapM load ls ≫= fun k => mret (y :: k)) s).
  change (mapM (fun l => heap s !! l) (l :: ls))
    with (heap s !! l ≫= fun y => mapM (fun l => heap s !! l) ls ≫=
            fun k => mret (y :: k)).
  destruct (heap s !! l) as [m|] eqn:Hl.
  - rewrite (bind_Ret (load l) _ s m s) by (unfold load; by rewrite Hl).
    destruct (mapM (fun l => heap s !! l) ls) as [ms|].
    + by rewrite (bind_Ret _ _ _ _ _ IH).
    + by rewrite (bind_Raise _ _ _ _ _ IH).
  - by rewrite (bind_Raise (load l) _ s TypeError s) by (unfold load; by rewrite Hl).
Qed.

(** X13: [maps_] is set before [learn_from_maps] is called (lines 151-154):
    when the loop has returned and [learn_from_maps] raises, [fit] raises the
    same exception and [maps_] holds the thresholded maps all the same. *)
Theorem fit_learn_failure `{Collaborators}
    fuel self data s rs data' pcas s1 ica_maps s2 subjects_data e :
  kurtosis_thr self = PyFalse ->
  maps_only self = false ->
  reduction self data s = (Ret (rs, data', pcas), s1) ->
  escalate fuel pcas NegInf (n_components self) rs s1 = (Ret ica_maps, s2) ->
  mapM (fun l => heap s2 !! l) data' = Some subjects_data ->
  learn_from_maps (threshold_maps (threshold self) ica_maps) subjects_data = Some e ->
  (fit fuel self data s).1 = Raise e ∧
  maps_ (fit fuel self data s).2 = Some (threshold_maps (threshold self) ica_maps).
Proof.
  intros Hthr Honly Hred Hloop Hdata Hlearn.
  unfold fit. rewrite (bind_Ret _ _ _ _ _ Hred).
  unfold resolve_kurtosis_thr. rewrite Hthr.
  rewrite (bind_Ret _ _ _ NegInf s1 eq_refl).
  rewrite (bind_Ret _ _ _ _ _ Hloop).
  rewrite (bind_Ret (set_maps_ (threshold_maps (threshold self) ica_maps)) _ s2 tt
             _ eq_refl).
  rewrite Honly. unfold relearn, mbind, M_bind, get_maps_. simpl.
  rewrite mapM_load. simpl. rewrite Hdata. simpl. by rewrite Hlearn.
Qed.

Lemma fit_learn_failure_witness :
  (@fit (Demo.collaborators_failing_learn Demo.sources_a) 1 (Demo.default_model 2)
     Demo.data0 Demo.state0).1 = Raise LinAlgError ∧
  maps_ (@fit (Demo.collaborators_failing_learn Demo.sources_a) 1
           (Demo.default_model 2) Demo.data0 Demo.state0).2
    = Some (@threshold_maps (Demo.collaborators_failing_learn Demo.sources_a) 1
              [[0; 1]; [1; 0]]%Q).
Proof.
  eapply (fit_learn_failure (H := Demo.collaborators_failing_learn Demo.sources_a) 1
            (Demo.default_model 2) Demo.data0 Demo.state0 0%nat [2%nat; 3%nat]
            [Demo.identity 2; Demo.identity 2]
            (@reduction (Demo.collaborators_failing_learn Demo.sources_a)
               (Demo.default_model 2) Demo.data0 Demo.state0).2
            [[0; 1]; [1; 0]]%Q
            (@escalate (Demo.collaborators_failing_learn Demo.sources_a) 1
               [Demo.identity 2; Demo.identity 2] NegInf 2 0%nat
               (@reduction (Demo.collaborators_failing_learn Demo.sources_a)
                  (Demo.default_model 2) Demo.data0 Demo.state0).2).2).
  - reflexivity.
  - reflexivity.
  - vm_compute. reflexivity.
  - vm_compute. reflexivity.
  - vm_compute. reflexivity.
  - reflexivity.
Defined.

Lemma escalate_maps_ `{Collaborators} fuel pcas thr k rs s :
  maps_ (escalate fuel pcas thr k rs s).2 = maps_ s.
Proof.
  refine (proj1 (keeps_escalate (fun s' => maps_ s' = maps_ s)
                   _ fuel pcas thr k rs s eq_refl)).
  intros e s' Hs'. by split.
Qed.

(** X14: with [maps_only], a call to [fit] that does not return leaves
    [maps_] as it was: nothing is published before the loop has returned. *)
Theorem fit_maps_only_failure `{Collaborators} fuel self data s :
  maps_only self = true ->
  (fit fuel self data s).1 ≠ Ret tt ->
  maps_ (fit fuel self data s).2 = maps_ s.
Proof.
  intros Honly Hfail.
  pose proof (reduction_maps_ self data s) as Hred.
  unfold fit, mbind, M_bind in *.
  destruct (reduction self data s) as [[[[rs data'] pcas]|e|] s1]; simpl in Hred;
    [|done..].
  unfold resolve_kurtosis_thr in *.
  destruct (kurtosis_thr self); simpl in *; [|done].
  pose proof (escalate_maps_ fuel pcas NegInf (n_components self) rs s1) as Hloop.
  destruct (escalate fuel pcas NegInf (n_components self) rs s1)
    as [[ica_maps|e|] s2]; simpl in *; [|congruence..].
  rewrite Honly in Hfail. by destruct Hfail.
Qed.

Lemma fit_maps_only_failure_witness :
  maps_ (Demo.run Demo.sources_a 1
           (init 0 None None None None (Some true) None) Demo.data0 Demo.state0).2
    = None.
Proof.
  apply (fit_maps_only_failure (H := Demo.collaborators Demo.sources_a) 1
           (init 0 None None None None (Some true) None) Demo.data0 Demo.state0).
  - reflexivity.
  - vm_compute. discriminate.
Defined.

(** ** [transform], its errors and its entries *)

(** X15: [transform] never changes the state.  On a model that was not
    fitted it raises [AttributeError]; on a fitted model it raises
    [ValueError] as soon as a row of its argument has not as many entries as
    the maps have columns. *)
Theorem transform_errors (X : matrix) s :
  (transform X s).2 = s ∧
  (maps_ s = None -> (transform X s).1 = Raise AttributeError) ∧
  (∀ maps, maps_ s = Some maps ->
     Exists (fun r : vec => length r ≠ np.shape1 maps) X ->
     ∃ msg, (transform X s).1 = Raise (ValueError msg)).
Proof.
  unfold transform, mbind, M_bind, get_maps_.
  destruct (maps_ s) as [maps|]; simpl.
  - split_and!; [|done|].
    + by destruct (np.dot X (np.transpose maps)).
    + intros ? [= <-] Hbad. unfold np.dot.
      destruct (forallb _ X) eqn:Hall; simpl; [|by eexists].
      rewrite forallb_forall in Hall. apply Exists_exists in Hbad as (r & Hr & Hlen).
      apply list_elem_of_In, Hall, Nat.eqb_eq in Hr.
      rewrite shape0_transpose in Hr. done.
  - by split_and!.
Qed.

Lemma transform_errors_witness :
  ∃ msg, (transform [[1; 2; 3]]%Q (State ∅ (Some [[1; 0]; [1; 1]]%Q) [])).1
         = Raise (ValueError msg).
Proof.
  refine (proj2 (proj2 (transform_errors [[1; 2; 3]]%Q
                          (State ∅ (Some [[1; 0]; [1; 1]]%Q) [])))
            [[1; 0]; [1; 1]]%Q eq_refl _).
  constructor. simpl. lia.
Defined.

Lemma column_transpose (m : matrix) i :
  np.column i (np.transpose m) = map (fun j => nth i (np.column j m) 0%Q)
                                     (seq 0 (np.shape1 m)).
Proof. unfold np.transpose. unfold np.column at 1. by rewrite map_map. Qed.

Lemma nth_column (m : matrix) i j :
  (i < length m)%nat -> nth i (np.column j m) 0%Q = nth j (nth i m []) 0%Q.
Proof.
  intros Hi. unfold np.column.
  rewrite (nth_indep _ 0%Q ((fun r => nth j r 0%Q) [])) by (by rewrite length_map).
  by rewrite (map_nth (fun r => nth j r 0%Q) m [] i).
Qed.

Lemma transpose_involutive (m : matrix) :
  rectangular m -> (0 < np.shape1 m)%nat -> np.transpose (np.transpose m) = m.
Proof.
  intros [Hne Hrect] Hf.
  assert (Hshape : np.shape1 (np.transpose m) = length m).
  { unfold np.transpose. destruct (np.shape1 m) as [|f]; [lia|].
    simpl. unfold np.column. by rewrite length_map. }
  unfold np.transpose at 1. rewrite Hshape.
  transitivity ((fun i => nth i m []) <$> seq 0 (length m)); [|apply fmap_nth_seq].
  fmapify. apply list_fmap_ext.
  intros i x Hx. apply lookup_seq in Hx as [-> Hi]. simpl.
  rewrite column_transpose.
  assert (Hrow : length (nth i m []) = np.shape1 m).
  { rewrite Forall_forall in Hrect. apply Hrect, list_elem_of_In, nth_In. lia. }
  apply list_eq. intros j. fmapify. rewrite list_lookup_fmap.
  destruct (decide (j < np.shape1 m)%nat) as [Hj|Hj].
  - rewrite lookup_seq_lt by done. simpl. rewrite nth_column by done.
    destruct (lookup_lt_is_Some_2 (nth i m []) j) as [x Hx]; [lia|].
    by rewrite Hx, (nth_lookup_Some _ _ _ _ Hx).
  - rewrite lookup_seq_ge, lookup_ge_None_2 by lia. done.
Qed.

(** X16: on a model fitted with maps of at least one row and one column,
    all of one length, [transform] of an array whose rows are as long as the
    maps returns one row per row of the array and one entry per map: the dot
    product of the row with the map. *)
Theorem transform_entries maps (X : matrix) s :
  maps_ s = Some maps ->
  rectangular maps ->
  (0 < np.shape1 maps)%nat ->
  Forall (fun r : vec => length r = np.shape1 maps) X ->
  transform X s = (Ret (map (fun r => map (np.vdot r) maps) X), s).
Proof.
  intros Hm Hrect Hf HX. rewrite (transform_fitted maps X s Hm).
  rewrite <- shape0_transpose in HX. rewrite (dot_aligned _ _ HX).
  by rewrite transpose_involutive.
Qed.

Lemma transform_entries_witness :
  transform [[1; 2]; [0; 5]]%Q (State ∅ (Some [[1; 0]; [1; 1]; [0; 3]]%Q) []) =
  (Ret (map (fun r => map (np.vdot r) [[1; 0]; [1; 1]; [0; 3]]%Q) [[1; 2]; [0; 5]]%Q),
   State ∅ (Some [[1; 0]; [1; 1]; [0; 3]]%Q) []).
Proof.
  apply transform_entries.
  - reflexivity.
  - split; [discriminate|repeat constructor].
  - simpl. lia.
  - repeat constructor.
Defined.

(** ** Thresholding twice *)

(** X17: thresholding maps that are thresholded already changes nothing. *)
Theorem threshold_maps_idempotent `{Collaborators} (t : Q) (ica_maps : matrix) :
  threshold_maps t (threshold_maps t ica_maps) = threshold_maps t ica_maps.
Proof.
  unfold threshold_maps, cutoff. rewrite shape1_zero_below.
  set (c := (t / _)%Q). unfold np.zero_below. rewrite map_map.
  apply map_ext. intros r. rewrite map_map. apply map_ext. intros x.
  destruct (Qlt_le_dec (Qabs x) c) as [Hlt|Hle].
  - destruct (Qlt_le_dec (Qabs 0) c) as [_|Hle0]; [done|].
    exfalso. apply (Qlt_irrefl c). eapply Qle_lt_trans; [exact Hle0|].
    eapply Qle_lt_trans; [|exact Hlt]. apply Qabs_nonneg.
  - destruct (Qlt_le_dec (Qabs x) c) as [Hlt|_]; [|done].
    exfalso. apply (Qlt_irrefl c). by eapply Qle_lt_trans.
Qed.

